(** * inquirer-snippet: the prompt state machine and its renderer

    A shallow embedding of [src/index.ts] (the select-aware prompt) and of
    the types of [src/types.ts].  The prompt is a view function run by
    @inquirer/core: every cell created with [useState] becomes a field of
    the record [State], the key handler [userHandler] becomes a function
    from the state of the current render to the state of the next one, and
    the calls it makes on its collaborators ([done], the readline) are
    returned as a list of effects.

    Conventions.
    - A JavaScript string is a sequence of code units; the embedding uses
      [string], one character standing for one code unit.
    - A JavaScript number that indexes the field list is a [JsNum]: an
      integer or [NaN] (which [%] produces when the field list is empty).
    - [Record<string, string>] is a [gmap string string]; [config.fields]
      is an association list in [Object.keys] order, since the order of the
      fields is observable.
    - A plain object and a map differ at one key: an assignment to
      [__proto__] stores nothing and a read of it yields the prototype.
      The statements about the entries of the value map and about what the
      render loop reads from it are made for configurations without a
      field of that name ([ordinaryNames]). *)

From Stdlib Require Import ZArith String Ascii List Bool Lia.
From stdpp Require Import gmap strings list fin_maps.

Local Open Scope Z_scope.
Local Open Scope string_scope.

(** ** JavaScript values used by the prompt *)

Module Js.

(** Numbers held in [activeFieldIndex]. *)
Inductive JsNum : Type :=
| Int (z : Z)
| NaN.

#[global] Instance JsNum_eq_dec : EqDecision JsNum.
Proof. solve_decision. Defined.

(** [x + k] and [x - k] for an integer literal [k]. *)
Definition add (x : JsNum) (k : Z) : JsNum :=
  match x with Int z => Int (z + k) | NaN => NaN end.

(** [Math.max(k, x)]: [NaN] as soon as one argument is [NaN]. *)
Definition max (k : Z) (x : JsNum) : JsNum :=
  match x with Int z => Int (Z.max k z) | NaN => NaN end.

(** [Math.min(k, x)]. *)
Definition min (k : Z) (x : JsNum) : JsNum :=
  match x with Int z => Int (Z.min k z) | NaN => NaN end.

(** [x % n]: the remainder has the sign of the dividend, and a zero
    divisor gives [NaN]. *)
Definition rem (x : JsNum) (n : Z) : JsNum :=
  match x with
  | Int z => if (n =? 0)%Z then NaN else Int (Z.rem z n)
  | NaN => NaN
  end.

(** [arr[x]]: [undefined] outside the array, and for [NaN]. *)
Definition index {A : Type} (arr : list A) (x : JsNum) : option A :=
  match x with
  | Int z => if (0 <=? z)%Z then arr !! Z.to_nat z else None
  | NaN => None
  end.

(** [arr.length]. *)
Definition length {A : Type} (arr : list A) : Z := Z.of_nat (List.length arr).

(** [arr.findIndex(p)]: the first position where [p] holds, [-1] if none. *)
Fixpoint findIndex_from {A : Type} (p : A → bool) (arr : list A) (i : Z) : Z :=
  match arr with
  | [] => -1
  | x :: rest => if p x then i else findIndex_from p rest (i + 1)
  end.

Definition findIndex {A : Type} (p : A → bool) (arr : list A) : Z :=
  findIndex_from p arr 0.

(** Truthiness of a string: only the empty string is falsy. *)
Definition truthy (s : string) : bool :=
  match s with EmptyString => false | String _ _ => true end.

(** Truthiness of a [string | null] (or [string | undefined]) cell: the
    string when it is truthy. *)
Definition truthy_opt (o : option string) : option string :=
  match o with
  | Some s => if truthy s then Some s else None
  | None => None
  end.

(** [o || d] for an optional string. *)
Definition or_else (o : option string) (d : string) : string :=
  match truthy_opt o with Some s => s | None => d end.

(** [s.slice(a, b)] and [s.slice(a)] for non-negative integer bounds. *)
Definition slice (s : string) (a b : nat) : string :=
  String.substring a (b - a) s.

Definition slice_from (s : string) (a : nat) : string :=
  String.substring a (String.length s - a) s.

(** [arr.filter(Boolean).join(sep)] on an array of strings. *)
Fixpoint join (sep : string) (arr : list string) : string :=
  match arr with
  | [] => ""
  | [x] => x
  | x :: rest => x +:+ sep +:+ join sep rest
  end.

Definition filter_truthy (arr : list string) : list string :=
  List.filter truthy arr.

End Js.

Export Js (JsNum, Int, NaN).

(** ** The types of [types.ts] *)

(** An entry of [options]: a bare string or a [{name, value}] pair. *)
Inductive RawOption : Type :=
| OptString (s : string)
| OptPair (name value : string).

Record SelectOption : Type := mkSelectOption {
  opt_name : string;
  opt_value : string
}.

Record SnippetField : Type := mkSnippetField {
  field_message : option string;
  field_initial : option string;
  field_required : option bool;
  field_options : option (list RawOption)
}.

(** What a [ValidationFunction] returns: [string | boolean]. *)
Inductive ValidationResult : Type :=
| VBool (b : bool)
| VString (s : string).

Inductive Status : Type := idle | loading | done.

#[global] Instance Status_eq_dec : EqDecision Status.
Proof. solve_decision. Defined.

(** The merged theme ([makeTheme(snippetTheme, config.theme)]): the four
    style functions of [SnippetTheme] and the ones the host supplies. *)
Record Theme : Type := mkTheme {
  style_field : string → string;
  style_activeField : string → string;
  style_placeholder : string → string;
  style_activePlaceholder : string → string;
  style_message : string → Status → string;
  style_key : string → string;
  style_help : string → string;
  style_error : string → string;
  theme_prefix : Status → string
}.

Record SnippetConfig : Type := mkSnippetConfig {
  message : string;
  template : string;
  fields : list (string * SnippetField);
  validate : option (gmap string string → ValidationResult);
  theme : Theme
}.

(** The part of a keypress the handler looks at. *)
Record KeypressEvent : Type := mkKey {
  key_name : string;
  key_ctrl : bool
}.

(** The readline as the handler reads it. *)
Record InquirerReadline : Type := mkReadline {
  line : string
}.

(** What the handler does to its collaborators. *)
Inductive Effect : Type :=
| Done (result : gmap string string)
| RlSetLine (text : string)
| RlWrite (text : string).

(** ** Key predicates of @inquirer/core (called without key bindings) *)

Definition isEnterKey (key : KeypressEvent) : bool :=
  String.eqb (key_name key) "enter" || String.eqb (key_name key) "return".

Definition isUpKey (key : KeypressEvent) : bool :=
  String.eqb (key_name key) "up".

Definition isDownKey (key : KeypressEvent) : bool :=
  String.eqb (key_name key) "down".

(** ** The state cells of the prompt *)

Record State : Type := mkState {
  status : Status;
  errorMsg : option string;
  values : gmap string string;
  activeFieldIndex : JsNum;
  editingField : option string;
  fieldInput : string;
  cursorPosition : nat;
  selectingField : option string;
  selectedOptionIndex : Z
}.

Section Prompt.

Variable config : SnippetConfig.

(** [Object.keys(config.fields)] *)
Definition fieldNames : list string := map fst (fields config).

(** [config.fields[name]] *)
Fixpoint lookupField (fs : list (string * SnippetField)) (name : string)
  : option SnippetField :=
  match fs with
  | [] => None
  | (n, f) :: rest => if String.eqb n name then Some f else lookupField rest name
  end.

Definition getField (name : string) : option SnippetField :=
  lookupField (fields config) name.

(** [initialValues]: one entry per field, [initial || ""]. *)
Definition initialValues : gmap string string :=
  fold_left
    (fun acc name =>
       <[name := Js.or_else (getField name ≫= field_initial) ""]> acc)
    fieldNames ∅.

Definition initialState : State :=
  {| status := idle;
     errorMsg := None;
     values := initialValues;
     activeFieldIndex := Int 0;
     editingField := None;
     fieldInput := "";
     cursorPosition := 0%nat;
     selectingField := None;
     selectedOptionIndex := 0 |}.

Definition normalizeOptions (options : list RawOption) : list SelectOption :=
  map (fun option =>
         match option with
         | OptString s => {| opt_name := s; opt_value := s |}
         | OptPair n v => {| opt_name := n; opt_value := v |}
         end) options.

(** [field?.options || []] *)
Definition optionsOf (field : option SnippetField) : list RawOption :=
  match field ≫= field_options with Some os => os | None => [] end.

Definition isSelectField (fieldName : string) : bool :=
  match getField fieldName ≫= field_options with
  | Some os => (0 <? Js.length os)%Z
  | None => false
  end.

(** [values[name] || ""] *)
Definition currentValueOf (vs : gmap string string) (name : string) : string :=
  Js.or_else (vs !! name) "".

Definition isSubmitKey (key : KeypressEvent) : bool :=
  key_ctrl key && String.eqb (key_name key) "s".

(** The validation gate of the submit branch: [validate?.(values) ?? true]. *)
Definition runValidate (vs : gmap string string) : ValidationResult :=
  match validate config with
  | Some f => f vs
  | None => VBool true
  end.

(** The key handler.  [st] is the state of the render that installed the
    handler; the result is the state after all setters ran, and the
    effects in program order. *)
Definition userHandler (key : KeypressEvent) (rl : InquirerReadline) (st : State)
  : State * list Effect :=
  match Js.truthy_opt (selectingField st) with
  | Some selecting =>
      let options := normalizeOptions (optionsOf (getField selecting)) in
      if isEnterKey key then
        let vs :=
          match Js.index options (Int (selectedOptionIndex st)) with
          | Some selectedOption => <[selecting := opt_value selectedOption]> (values st)
          | None => values st
          end in
        (mkState (status st) (errorMsg st) vs (activeFieldIndex st)
                 (editingField st) (fieldInput st) (cursorPosition st)
                 None 0, [])
      else if String.eqb (key_name key) "escape" then
        (mkState (status st) (errorMsg st) (values st) (activeFieldIndex st)
                 (editingField st) (fieldInput st) (cursorPosition st)
                 None 0, [])
      else if isUpKey key then
        (mkState (status st) (errorMsg st) (values st) (activeFieldIndex st)
                 (editingField st) (fieldInput st) (cursorPosition st)
                 (selectingField st) (Z.max 0 (selectedOptionIndex st - 1)), [])
      else if isDownKey key then
        (mkState (status st) (errorMsg st) (values st) (activeFieldIndex st)
                 (editingField st) (fieldInput st) (cursorPosition st)
                 (selectingField st)
                 (Z.min (Js.length options - 1) (selectedOptionIndex st + 1)), [])
      else (st, [])
  | None =>
      match Js.truthy_opt (editingField st) with
      | Some editing =>
          if isEnterKey key then
            (mkState (status st) (errorMsg st)
                     (<[editing := fieldInput st]> (values st))
                     (activeFieldIndex st) None "" 0%nat
                     (selectingField st) (selectedOptionIndex st),
             [RlWrite ""])
          else if String.eqb (key_name key) "escape" then
            (mkState (status st) (errorMsg st) (values st)
                     (activeFieldIndex st) None "" 0%nat
                     (selectingField st) (selectedOptionIndex st),
             [RlWrite ""])
          else
            (mkState (status st) (errorMsg st) (values st)
                     (activeFieldIndex st) (editingField st)
                     (line rl) (String.length (line rl))
                     (selectingField st) (selectedOptionIndex st), [])
      | None =>
          if isSubmitKey key then
            match runValidate (values st) with
            | VBool true =>
                (mkState done (errorMsg st) (values st) (activeFieldIndex st)
                         (editingField st) (fieldInput st) (cursorPosition st)
                         (selectingField st) (selectedOptionIndex st),
                 [Done (values st)])
            | VBool false =>
                (mkState idle (Some "Invalid values provided") (values st)
                         (activeFieldIndex st)
                         (editingField st) (fieldInput st) (cursorPosition st)
                         (selectingField st) (selectedOptionIndex st), [])
            | VString msg =>
                (mkState idle (Some msg) (values st) (activeFieldIndex st)
                         (editingField st) (fieldInput st) (cursorPosition st)
                         (selectingField st) (selectedOptionIndex st), [])
            end
          else if isEnterKey key then
            match Js.index fieldNames (activeFieldIndex st) with
            | Some fieldName =>
                if Js.truthy fieldName then
                  if isSelectField fieldName then
                    let options := normalizeOptions (optionsOf (getField fieldName)) in
                    let currentValue := currentValueOf (values st) fieldName in
                    let currentIndex :=
                      Js.findIndex
                        (fun opt => String.eqb (opt_value opt) currentValue)
                        options in
                    (mkState (status st) (errorMsg st) (values st)
                             (activeFieldIndex st)
                             (editingField st) (fieldInput st) (cursorPosition st)
                             (Some fieldName)
                             (if (0 <=? currentIndex)%Z then currentIndex else 0), [])
                  else
                    let currentValue := currentValueOf (values st) fieldName in
                    (mkState (status st) (errorMsg st) (values st)
                             (activeFieldIndex st)
                             (Some fieldName) currentValue
                             (String.length currentValue)
                             (selectingField st) (selectedOptionIndex st),
                     [RlSetLine ""; RlWrite currentValue])
                else (st, [])
            | None => (st, [])
            end
          else if isUpKey key then
            (mkState (status st) (errorMsg st) (values st)
                     (Js.max 0 (Js.add (activeFieldIndex st) (-1)))
                     (editingField st) (fieldInput st) (cursorPosition st)
                     (selectingField st) (selectedOptionIndex st), [])
          else if isDownKey key then
            (mkState (status st) (errorMsg st) (values st)
                     (Js.min (Js.length fieldNames - 1)
                             (Js.add (activeFieldIndex st) 1))
                     (editingField st) (fieldInput st) (cursorPosition st)
                     (selectingField st) (selectedOptionIndex st), [])
          else if String.eqb (key_name key) "tab" then
            (mkState (status st) (errorMsg st) (values st)
                     (Js.rem (Js.add (activeFieldIndex st) 1)
                             (Js.length fieldNames))
                     (editingField st) (fieldInput st) (cursorPosition st)
                     (selectingField st) (selectedOptionIndex st), [])
          else (st, [])
      end
  end.

(** One key event as the host delivers it: the key and the readline. *)
Definition Event : Type := KeypressEvent * InquirerReadline.

Definition step (st : State) (ev : Event) : State :=
  fst (userHandler (fst ev) (snd ev) st).

(** The state after a sequence of key events, each handled in the state
    the previous one left. *)
Definition run (evs : list Event) (st : State) : State :=
  fold_left step evs st.

(** The effects of a sequence of key events, in order. *)
Fixpoint effects (evs : list Event) (st : State) : list Effect :=
  match evs with
  | [] => []
  | ev :: rest =>
      snd (userHandler (fst ev) (snd ev) st) ++ effects rest (step st ev)
  end.

End Prompt.

(** ** Regular expressions and [String.prototype.replace]

    [renderSnippet] builds a [RegExp] from the escaped placeholder and
    replaces globally.  The embedding covers the patterns that are a
    sequence of pattern characters and identity escapes: such a pattern
    matches one literal string.  Any other pattern is outside the
    embedding ([None]). *)

Module RegExp.

Definition ascii_in (c : ascii) (set : string) : bool :=
  existsb (Ascii.eqb c) (list_ascii_of_string set).

(** The class [[.*+?^${}()|[\]\\]] of the escaping step. *)
Definition isEscaped (c : ascii) : bool := ascii_in c ".*+?^${}()|[]\".

(** The syntax characters of a pattern: they do not stand for
    themselves unless escaped. *)
Definition isSyntaxCharacter (c : ascii) : bool := ascii_in c "^$\.*+?()[]{}|".

(** [s.replace(/[.*+?^${}()|[\]\\]/g, "\\$&")]: every character of the
    class is preceded by a backslash. *)
Fixpoint escape (s : string) : string :=
  match s with
  | EmptyString => EmptyString
  | String c rest =>
      if isEscaped c then String "\" (String c (escape rest))
      else String c (escape rest)
  end.

(** The literal string a pattern source matches, for a source made of
    pattern characters and identity escapes of syntax characters. *)
Fixpoint literal (source : string) : option string :=
  match source with
  | EmptyString => Some EmptyString
  | String "\" (String c rest) =>
      if isSyntaxCharacter c then String c <$> literal rest else None
  | String c rest =>
      if isSyntaxCharacter c then None else String c <$> literal rest
  end.

(** [GetSubstitution] for a match without capture groups: [$$] is a
    dollar sign, [$&] the matched text, [$`] the text before the match and
    [$'] the text after it; every other character stands for itself. *)
Fixpoint getSubstitution (matched before after replacement : string) : string :=
  match replacement with
  | EmptyString => EmptyString
  | String "$" (String "$" rest) =>
      String "$" (getSubstitution matched before after rest)
  | String "$" (String "&" rest) =>
      matched +:+ getSubstitution matched before after rest
  | String "$" (String "`" rest) =>
      before +:+ getSubstitution matched before after rest
  | String "$" (String "'" rest) =>
      after +:+ getSubstitution matched before after rest
  | String c rest => String c (getSubstitution matched before after rest)
  end.

(** [str.replace(re, replacement)] for a global [re] matching the literal
    [needle]: the matches are found from left to right without overlap.
    [before] is the part of [str] already passed and [skip] counts the
    characters of the current match still to pass. *)
Fixpoint replace_from (needle replacement before rest : string) (skip : nat)
  : string :=
  match rest with
  | EmptyString =>
      match needle with
      | EmptyString => getSubstitution needle before "" replacement
      | _ => EmptyString
      end
  | String c rest' =>
      match skip with
      | S k => replace_from needle replacement (before +:+ String c "") rest' k
      | O =>
          if String.prefix needle rest then
            getSubstitution needle before
              (Js.slice_from rest (String.length needle)) replacement
            +:+
            match needle with
            | EmptyString =>
                String c (replace_from needle replacement
                            (before +:+ String c "") rest' 0)
            | _ =>
                replace_from needle replacement (before +:+ String c "") rest'
                  (String.length needle - 1)
            end
          else
            String c (replace_from needle replacement
                        (before +:+ String c "") rest' 0)
      end
  end.

(** [str.replace(new RegExp(source, "g"), replacement)] *)
Definition replace (str source replacement : string) : option string :=
  needle ← literal source;
  Some (replace_from needle replacement "" str 0).

End RegExp.

(** The substitution the specification words describe: every literal
    occurrence of [token], from left to right, gives way to [fragment]
    as it is. *)
Fixpoint substituteToken_from (token fragment rest : string) (skip : nat) : string :=
  match rest with
  | EmptyString => EmptyString
  | String c rest' =>
      match skip with
      | S k => substituteToken_from token fragment rest' k
      | O =>
          if String.prefix token rest then
            fragment +:+
            substituteToken_from token fragment rest' (String.length token - 1)
          else String c (substituteToken_from token fragment rest' 0)
      end
  end.

Definition substituteToken (token fragment str : string) : string :=
  substituteToken_from token fragment str 0.

(** ** Rendering *)

Definition ESC : string := String (ascii_of_nat 27) EmptyString.

(** [`\x1b[7m${text}\x1b[27m`] *)
Definition inverted (text : string) : string :=
  ESC +:+ "[7m" +:+ text +:+ ESC +:+ "[27m".

(** [`\x1b[2m${text}\x1b[22m`] *)
Definition dimmed (text : string) : string :=
  ESC +:+ "[2m" +:+ text +:+ ESC +:+ "[22m".

(** The glyphs of the option list and of the help line, as bytes. *)
Definition glyph (bytes : list nat) : string :=
  string_of_list_ascii (map ascii_of_nat bytes).

Definition pointer : string := glyph [226; 157; 175]%nat.
Definition arrows : string := glyph [226; 134; 145; 226; 134; 147]%nat.

(** [snippetTheme], completed with the host's styles. *)
Definition snippetTheme
  (host_message : string → Status → string)
  (host_key host_help host_error : string → string)
  (host_prefix : Status → string) : Theme :=
  {| style_field := fun text => text;
     style_activeField := inverted;
     style_placeholder := dimmed;
     style_activePlaceholder := fun text => inverted (dimmed text);
     style_message := host_message;
     style_key := host_key;
     style_help := host_help;
     style_error := host_error;
     theme_prefix := host_prefix |}.

(** The host's styles on a terminal without colours. *)
Definition plainTheme : Theme :=
  snippetTheme (fun text _ => text)
               (fun text => "<" +:+ text +:+ ">")
               (fun text => text)
               (fun text => "> " +:+ text)
               (fun _ => "?").

Section Render.

Variable config : SnippetConfig.
Variable st : State.

(** [`{{${fieldName}}}`] *)
Definition placeholderOf (fieldName : string) : string :=
  "{{" +:+ fieldName +:+ "}}".

Definition isFalsy (o : option string) : bool :=
  match Js.truthy_opt o with Some _ => false | None => true end.

Definition strictEq (o : option string) (s : string) : bool :=
  match o with Some s' => String.eqb s' s | None => false end.

Definition indexIs (index : nat) (x : JsNum) : bool :=
  match x with Int z => (Z.of_nat index =? z)%Z | NaN => false end.

(** The body of the loop of [renderSnippet] up to [displayValue]. *)
Definition displayValue (fieldName : string) (index : nat) : string :=
  let field := getField config fieldName in
  let isEditing := strictEq (editingField st) fieldName in
  let value :=
    if isEditing then fieldInput st
    else currentValueOf (values st) fieldName in
  let isActive :=
    indexIs index (activeFieldIndex st)
    && isFalsy (editingField st) && isFalsy (selectingField st) in
  let isSelecting := strictEq (selectingField st) fieldName in
  if Js.truthy value then
    if isEditing then
      let beforeCursor := Js.slice value 0 (cursorPosition st) in
      let atCursor :=
        Js.or_else
          (Some (Js.slice value (cursorPosition st) (cursorPosition st + 1)))
          " " in
      let afterCursor := Js.slice_from value (cursorPosition st + 1) in
      beforeCursor +:+ inverted atCursor +:+ afterCursor
    else if isSelecting then inverted value
    else if isActive then style_activeField (theme config) value
    else style_field (theme config) value
  else
    let placeholderText :=
      Js.or_else (field ≫= field_message) fieldName in
    if isEditing then inverted " "
    else if isSelecting then inverted (dimmed placeholderText)
    else if isActive then style_activePlaceholder (theme config) placeholderText
    else style_placeholder (theme config) placeholderText.

(** One turn of the loop: the placeholder of [fieldName] is replaced in
    what the previous turns rendered. *)
Definition renderField (rendered : string) (fieldName : string) (index : nat)
  : option string :=
  RegExp.replace rendered (RegExp.escape (placeholderOf fieldName))
                 (displayValue fieldName index).

Fixpoint renderFields (rendered : string) (names : list string) (index : nat)
  : option string :=
  match names with
  | [] => Some rendered
  | fieldName :: rest =>
      rendered' ← renderField rendered fieldName index;
      renderFields rendered' rest (S index)
  end.

Definition renderSnippet : option string :=
  renderFields (template config) (fieldNames config) 0.

Fixpoint optionLines (options : list SelectOption) (index : Z) : list string :=
  match options with
  | [] => []
  | option :: rest =>
      let isSelected := (index =? selectedOptionIndex st)%Z in
      let prefix := if isSelected then pointer +:+ " " else "  " in
      let text := if isSelected then inverted (opt_name option) else opt_name option in
      (prefix +:+ text) :: optionLines rest (index + 1)
  end.

Definition renderSelectOptions : string :=
  match Js.truthy_opt (selectingField st) with
  | None => ""
  | Some selecting =>
      let options := normalizeOptions (optionsOf (getField config selecting)) in
      Js.join (String (ascii_of_nat 10) "") (optionLines options 0)
  end.

Definition helpText : string :=
  let key := style_key (theme config) in
  match Js.truthy_opt (selectingField st) with
  | Some selecting =>
      style_help (theme config)
        ("Selecting " +:+ selecting +:+ " - " +:+ key arrows
         +:+ " to navigate, " +:+ key "enter" +:+ " to select, "
         +:+ key "esc" +:+ " to cancel")
  | None =>
      match Js.truthy_opt (editingField st) with
      | Some editing =>
          style_help (theme config)
            ("Editing " +:+ editing +:+ " - Press " +:+ key "enter"
             +:+ " to save, " +:+ key "esc" +:+ " to cancel")
      | None =>
          style_help (theme config)
            (key "enter" +:+ " to edit, " +:+ key arrows
             +:+ " to navigate, " +:+ key "ctrl+s" +:+ " to submit")
      end
  end.

(** The error line: only for a truthy [errorMsg]. *)
Definition errorLine : string :=
  match Js.truthy_opt (errorMsg st) with
  | Some msg => style_error (theme config) msg
  | None => ""
  end.

(** The frame: the header line and the body. *)
Definition renderFrame : option (string * string) :=
  snippet ← renderSnippet;
  let output :=
    Js.join " " (Js.filter_truthy
                   [theme_prefix (theme config) (status st);
                    style_message (theme config) (message config) (status st)]) in
  let content :=
    Js.join (String (ascii_of_nat 10) "")
            (Js.filter_truthy [snippet; renderSelectOptions; helpText; errorLine]) in
  Some (output, content).

End Render.

(** ** Modes and state updates *)

(** The mode of the prompt, as the handler and the help line decide it:
    a truthy [selectingField] first, then a truthy [editingField]. *)
Inductive Mode : Type :=
| navigating
| editingText (fieldName : string)
| selectingOption (fieldName : string).

#[global] Instance Mode_eq_dec : EqDecision Mode.
Proof. solve_decision. Defined.

Definition modeOf (st : State) : Mode :=
  match Js.truthy_opt (selectingField st) with
  | Some f => selectingOption f
  | None =>
      match Js.truthy_opt (editingField st) with
      | Some f => editingText f
      | None => navigating
      end
  end.

Definition withStatus (s : Status) (st : State) : State :=
  mkState s (errorMsg st) (values st) (activeFieldIndex st) (editingField st)
          (fieldInput st) (cursorPosition st) (selectingField st)
          (selectedOptionIndex st).

Definition withError (e : option string) (st : State) : State :=
  mkState (status st) e (values st) (activeFieldIndex st) (editingField st)
          (fieldInput st) (cursorPosition st) (selectingField st)
          (selectedOptionIndex st).

Definition withActive (i : JsNum) (st : State) : State :=
  mkState (status st) (errorMsg st) (values st) i (editingField st)
          (fieldInput st) (cursorPosition st) (selectingField st)
          (selectedOptionIndex st).



(** ** Keys, readlines and configurations used in the examples *)

Module Examples.

Definition keyEnter : KeypressEvent := mkKey "return" false.
Definition keyEscape : KeypressEvent := mkKey "escape" false.
Definition keyUp : KeypressEvent := mkKey "up" false.
Definition keyDown : KeypressEvent := mkKey "down" false.
Definition keyTab : KeypressEvent := mkKey "tab" false.
Definition keyCtrlS : KeypressEvent := mkKey "s" true.
Definition keyChar (c : string) : KeypressEvent := mkKey c false.

Definition rl (text : string) : InquirerReadline := mkReadline text.

Definition textField (initial : string) : SnippetField :=
  mkSnippetField None (Some initial) None None.

Definition selectField (initial : string) (options : list RawOption) : SnippetField :=
  mkSnippetField None (Some initial) None (Some options).

Definition nameRequired (vs : gmap string string) : ValidationResult :=
  if Js.truthy (currentValueOf vs "name") then VBool true
  else VString "Name is required".

Definition nameNonEmpty (vs : gmap string string) : ValidationResult :=
  VBool (Js.truthy (currentValueOf vs "name")).

Definition nameOrEmptyMessage (vs : gmap string string) : ValidationResult :=
  if Js.truthy (currentValueOf vs "name") then VBool true else VString "".

(** One text field, with the three kinds of predicate. *)
Definition nameForm (initial : string)
  (validate : option (gmap string string → ValidationResult)) : SnippetConfig :=
  mkSnippetConfig "Validation failure" "Name: {{name}}"
    [("name", mkSnippetField (Some "Your name") (Some initial) None None)]
    validate plainTheme.

(** A select field between two text fields. *)
Definition colorForm : SnippetConfig :=
  mkSnippetConfig "Pick" "{{who}} likes {{color}} and {{food}}"
    [("who", textField "Ann");
     ("color", selectField "green"
                 [OptString "red"; OptString "green"; OptPair "Blue" "blue";
                  OptPair "Green again" "green"]);
     ("food", textField "")]
    None plainTheme.


(** A field that declares [options: []]. *)
Definition emptyOptionsForm : SnippetConfig :=
  mkSnippetConfig "Empty options" "Value: {{empty}}"
    [("empty", mkSnippetField (Some "Empty") None None (Some []))]
    None plainTheme.

(** A field name with a regex metacharacter and a value with dollar signs. *)
Definition plusForm (initial : string) : SnippetConfig :=
  mkSnippetConfig "Regex special chars" "{{field+plus}} and field+plus"
    [("field+plus", textField initial)]
    None plainTheme.

(** The value of the first field holds the placeholder of the second. *)
Definition nestedForm : SnippetConfig :=
  mkSnippetConfig "Nested" "{{a}}"
    [("a", textField "see {{b}}"); ("b", textField "X")]
    None plainTheme.

(** The same fields declared in the other order. *)
Definition nestedFormReversed : SnippetConfig :=
  mkSnippetConfig "Nested" "{{a}}"
    [("b", textField "X"); ("a", textField "see {{b}}")]
    None plainTheme.


End Examples.

(** ** Statements about single steps, compared with the code below *)



(** One render pass puts the display fragment, as it is, at every
    occurrence of the placeholder of the only field. *)
Definition rendersFragmentExactly (config : SnippetConfig) (st : State)
  (fieldName : string) : Prop :=
  fieldNames config = [fieldName] →
  renderSnippet config st =
    Some (substituteToken (placeholderOf fieldName)
                          (displayValue config st fieldName 0)
                          (template config)).

(** A text without dollar signs. *)
Fixpoint noDollar (s : string) : bool :=
  match s with
  | EmptyString => true
  | String c rest => negb (Ascii.eqb c "$") && noDollar rest
  end.

Definition newline : string := String (ascii_of_nat 10) EmptyString.
(** ** The prompt without select support

    The second prompt of the repository has the same cells but
    [selectingField] and [selectedOptionIndex], and a handler with the
    editing and navigating branches only. *)

Module TextOnly.

Record State : Type := mkState {
  status : Status;
  errorMsg : option string;
  values : gmap string string;
  activeFieldIndex : JsNum;
  editingField : option string;
  fieldInput : string;
  cursorPosition : nat
}.

Definition userHandler (config : SnippetConfig)
  (key : KeypressEvent) (rl : InquirerReadline) (st : State)
  : State * list Effect :=
  match Js.truthy_opt (editingField st) with
  | Some editing =>
      if isEnterKey key then
        (mkState (status st) (errorMsg st)
                 (<[editing := fieldInput st]> (values st))
                 (activeFieldIndex st) None "" 0%nat,
         [RlWrite ""])
      else if String.eqb (key_name key) "escape" then
        (mkState (status st) (errorMsg st) (values st)
                 (activeFieldIndex st) None "" 0%nat,
         [RlWrite ""])
      else
        (mkState (status st) (errorMsg st) (values st)
                 (activeFieldIndex st) (editingField st)
                 (line rl) (String.length (line rl)), [])
  | None =>
      if isSubmitKey key then
        match runValidate config (values st) with
        | VBool true =>
            (mkState done (errorMsg st) (values st) (activeFieldIndex st)
                     (editingField st) (fieldInput st) (cursorPosition st),
             [Done (values st)])
        | VBool false =>
            (mkState idle (Some "Invalid values provided") (values st)
                     (activeFieldIndex st)
                     (editingField st) (fieldInput st) (cursorPosition st), [])
        | VString msg =>
            (mkState idle (Some msg) (values st) (activeFieldIndex st)
                     (editingField st) (fieldInput st) (cursorPosition st), [])
        end
      else if isEnterKey key then
        match Js.index (fieldNames config) (activeFieldIndex st) with
        | Some fieldName =>
            if Js.truthy fieldName then
              let currentValue := currentValueOf (values st) fieldName in
              (mkState (status st) (errorMsg st) (values st)
                       (activeFieldIndex st)
                       (Some fieldName) currentValue
                       (String.length currentValue),
               [RlWrite currentValue])
            else (st, [])
        | None => (st, [])
        end
      else if isUpKey key then
        (mkState (status st) (errorMsg st) (values st)
                 (Js.max 0 (Js.add (activeFieldIndex st) (-1)))
                 (editingField st) (fieldInput st) (cursorPosition st), [])
      else if isDownKey key then
        (mkState (status st) (errorMsg st) (values st)
                 (Js.min (Js.length (fieldNames config) - 1)
                         (Js.add (activeFieldIndex st) 1))
                 (editingField st) (fieldInput st) (cursorPosition st), [])
      else if String.eqb (key_name key) "tab" then
        (mkState (status st) (errorMsg st) (values st)
                 (Js.rem (Js.add (activeFieldIndex st) 1)
                         (Js.length (fieldNames config)))
                 (editingField st) (fieldInput st) (cursorPosition st), [])
      else (st, [])
  end.

End TextOnly.

(** The cells the two prompts share. *)
Definition textCells (st : State) : TextOnly.State :=
  TextOnly.mkState (status st) (errorMsg st) (values st) (activeFieldIndex st)
                   (editingField st) (fieldInput st) (cursorPosition st).

(** The effects without the assignments to [rl.line]. *)
Definition withoutSetLine (effs : list Effect) : list Effect :=
  List.filter (fun e => match e with RlSetLine _ => false | _ => true end) effs.

(** ** What the states of a prompt have in common *)

(** A state in which the cells agree: a field being edited or selected
    has a truthy name, is the active field and is of the right kind; the
    two modes exclude each other; the selection index is a position of the
    option list; the cursor is at the end of the input; the value map has
    one entry per field. *)
Record consistent (config : SnippetConfig) (st : State) : Prop := mkConsistent {
  editing_ok :
    ∀ f, editingField st = Some f →
         Js.truthy f = true
         ∧ Js.index (fieldNames config) (activeFieldIndex st) = Some f
         ∧ isSelectField config f = false
         ∧ selectingField st = None;
  selecting_ok :
    ∀ f, selectingField st = Some f →
         Js.truthy f = true
         ∧ Js.index (fieldNames config) (activeFieldIndex st) = Some f
         ∧ isSelectField config f = true
         ∧ editingField st = None
         ∧ (0 ≤ selectedOptionIndex st
            < Js.length (normalizeOptions (optionsOf (getField config f))))%Z;
  selection_reset : selectingField st = None → selectedOptionIndex st = 0%Z;
  cursor_at_end : cursorPosition st = String.length (fieldInput st);
  one_entry_per_field :
    dom (values st) = (list_to_set (fieldNames config) : gset string)
}.



(** The line of the option at position [n] of the option list. *)
Definition optionLine (st : State) (n : nat) (option : SelectOption) : string :=
  if (Z.of_nat n =? selectedOptionIndex st)%Z
  then pointer +:+ " " +:+ inverted (opt_name option)
  else "  " +:+ opt_name option.

(** ** Key sequences and forms used in further examples *)

Module Traces.

Import Examples.

(** On the colour form: down to the select field, open its list, down. *)
Definition openColors : list Event :=
  [(keyDown, rl ""); (keyEnter, rl ""); (keyDown, rl "")].

(** On the colour form: edit the first field and type. *)
Definition editWho : list Event :=
  [(keyEnter, rl ""); (keyChar "e", rl "Anne")].


(** Two text fields, no select field. *)
Definition greetingForm : SnippetConfig :=
  mkSnippetConfig "Fill in the template" "Hello {{name}}, welcome to {{company}}!"
    [("name", mkSnippetField (Some "Your name") (Some "John") None None);
     ("company", mkSnippetField (Some "Company name") (Some "Acme Corp") None None)]
    None plainTheme.

End Traces.

(** ** Field names as keys of a plain object *)

(** No field is keyed [__proto__]: for such a configuration the value map
    of the prompt, a plain object, has the entries of the [gmap]. *)
Definition ordinaryNames (config : SnippetConfig) : bool :=
  forallb (fun name => negb (String.eqb name "__proto__")) (fieldNames config).

(** A field declared with an empty option list is never in selectingOption
    mode, and Enter on it opens text editing. *)
Definition emptyOptionsFieldIsText (config : SnippetConfig) (fieldName : string)
  : Prop :=
  getField config fieldName ≫= field_options = Some [] →
  (∀ evs, modeOf (run config evs (initialState config)) ≠ selectingOption fieldName)
  ∧ (∀ key rl st,
       modeOf st = navigating →
       isEnterKey key = true →
       Js.index (fieldNames config) (activeFieldIndex st) = Some fieldName →
       modeOf (step config st (key, rl)) = editingText fieldName).

(** A field that declares [options: []] under the empty name. *)
Definition unnamedEmptyOptionsForm : SnippetConfig :=
  mkSnippetConfig "Empty options" "Value: {{}}"
    [("", mkSnippetField (Some "Empty") (Some "default") None (Some []))]
    None plainTheme.

(** ** Basic facts *)

Lemma modeOf_navigating (st : State) :
  modeOf st = navigating →
  Js.truthy_opt (selectingField st) = None ∧ Js.truthy_opt (editingField st) = None.
Proof.
  unfold modeOf.
  destruct (Js.truthy_opt (selectingField st)); [discriminate|].
  destruct (Js.truthy_opt (editingField st)); [discriminate|]. auto.
Qed.

Lemma modeOf_editing (st : State) (f : string) :
  modeOf st = editingText f →
  Js.truthy_opt (selectingField st) = None ∧ Js.truthy_opt (editingField st) = Some f.
Proof.
  unfold modeOf.
  destruct (Js.truthy_opt (selectingField st)); [discriminate|].
  destruct (Js.truthy_opt (editingField st)); [|discriminate].
  intros [= ->]. auto.
Qed.

Lemma submit_not_enter (key : KeypressEvent) :
  isSubmitKey key = true → isEnterKey key = false.
Proof.
  unfold isSubmitKey, isEnterKey.
  intros [_ H%String.eqb_eq]%andb_prop. rewrite H. reflexivity.
Qed.

Lemma named_key (key : KeypressEvent) (n : string) :
  key_name key = n →
  isSubmitKey key = (key_ctrl key && String.eqb n "s")
  ∧ isEnterKey key = (String.eqb n "enter" || String.eqb n "return")
  ∧ isUpKey key = String.eqb n "up"
  ∧ isDownKey key = String.eqb n "down".
Proof. intros <-. repeat split. Qed.

Lemma up_key_name (key : KeypressEvent) : isUpKey key = true → key_name key = "up".
Proof. apply String.eqb_eq. Qed.

Lemma down_key_name (key : KeypressEvent) : isDownKey key = true → key_name key = "down".
Proof. apply String.eqb_eq. Qed.

(** Every run keeps what every step keeps. *)
Lemma run_invariant (config : SnippetConfig) (P : State → Prop) :
  (∀ st ev, P st → P (step config st ev)) →
  ∀ evs st, P st → P (run config evs st).
Proof.
  intros Hstep evs. induction evs as [|ev evs IH]; intros st Hst; [exact Hst|].
  simpl. apply IH, Hstep, Hst.
Qed.

Lemma run_app (config : SnippetConfig) (evs1 evs2 : list Event) (st : State) :
  run config (evs1 ++ evs2) st = run config evs2 (run config evs1 st).
Proof. unfold run. apply fold_left_app. Qed.

Section Submit.

Variable config : SnippetConfig.

(** The submit branch, by the result of the validation gate. *)
Lemma submit_step (key : KeypressEvent) (rl : InquirerReadline) (st : State) :
  modeOf st = navigating →
  isSubmitKey key = true →
  userHandler config key rl st =
    match runValidate config (values st) with
    | VBool true => (withStatus done st, [Done (values st)])
    | VBool false =>
        (withError (Some "Invalid values provided") (withStatus idle st), [])
    | VString msg => (withError (Some msg) (withStatus idle st), [])
    end.
Proof.
  intros [Hs He]%modeOf_navigating Hkey.
  unfold userHandler. rewrite Hs, He, Hkey.
  destruct (runValidate config (values st)) as [[|]|msg]; reflexivity.
Qed.

Lemma modeOf_withStatus (s : Status) (st : State) :
  modeOf (withStatus s st) = modeOf st.
Proof. reflexivity. Qed.

Lemma modeOf_withError (e : option string) (st : State) :
  modeOf (withError e st) = modeOf st.
Proof. reflexivity. Qed.

(** C1. In navigating mode the ctrl+s key branches on the validation
    predicate: without a predicate, or when it returns [true], the status
    becomes [done] and the prompt resolves with the value map; when it
    returns [false] the error message is the fallback text; when it
    returns a string the error message is that string. The error line of
    the frame shows that message. In both failing cases nothing is
    resolved, the status is [idle] and the mode is still navigating. *)
Theorem submit_branches (key : KeypressEvent) (rl : InquirerReadline) (st : State) :
  modeOf st = navigating →
  isSubmitKey key = true →
  let st' := fst (userHandler config key rl st) in
  let effs := snd (userHandler config key rl st) in
  (validate config = None →
     st' = withStatus done st ∧ effs = [Done (values st)])
  ∧ (∀ f, validate config = Some f → f (values st) = VBool true →
     st' = withStatus done st ∧ effs = [Done (values st)])
  ∧ (∀ f, validate config = Some f → f (values st) = VBool false →
     effs = [] ∧ status st' = idle
     ∧ errorMsg st' = Some "Invalid values provided"
     ∧ errorLine config st' = style_error (theme config) "Invalid values provided"
     ∧ modeOf st' = navigating ∧ values st' = values st)
  ∧ (∀ f msg, validate config = Some f → f (values st) = VString msg →
     effs = [] ∧ status st' = idle ∧ errorMsg st' = Some msg
     ∧ (msg ≠ "" → errorLine config st' = style_error (theme config) msg)
     ∧ modeOf st' = navigating ∧ values st' = values st).
Proof.
  intros Hnav Hkey st' effs. subst st' effs.
  rewrite (submit_step key rl st Hnav Hkey). unfold runValidate.
  split; [|split; [|split]].
  - intros ->. split; reflexivity.
  - intros f -> ->. split; reflexivity.
  - intros f -> ->. simpl. do 4 (split; [reflexivity|]).
    split; [exact Hnav|reflexivity].
  - intros f msg -> ->. simpl. do 3 (split; [reflexivity|]).
    split; [|split; [exact Hnav|reflexivity]].
    intros Hmsg. destruct msg; [contradiction|reflexivity].
Qed.

(** The prompt resolves exactly when the gate yields the boolean [true]. *)
Lemma submit_resolves_iff (key : KeypressEvent) (rl : InquirerReadline) (st : State) :
  modeOf st = navigating →
  isSubmitKey key = true →
  snd (userHandler config key rl st) = [Done (values st)]
  ↔ runValidate config (values st) = VBool true.
Proof.
  intros Hnav Hkey. rewrite (submit_step key rl st Hnav Hkey).
  destruct (runValidate config (values st)) as [[|]|msg]; simpl;
    split; intros H; try reflexivity; discriminate.
Qed.




End Submit.

(** C1 at the name form: the predicate returns a message, the predicate
    returns [false]. *)
Lemma submit_branches_witness :
  let config := Examples.nameForm "" (Some Examples.nameRequired) in
  let st := initialState config in
  modeOf st = navigating
  ∧ isSubmitKey Examples.keyCtrlS = true
  ∧ errorMsg (fst (userHandler config Examples.keyCtrlS (Examples.rl "") st))
    = Some "Name is required".
Proof.
  split; [reflexivity|]. split; [reflexivity|].
  destruct (submit_branches (Examples.nameForm "" (Some Examples.nameRequired))
              Examples.keyCtrlS (Examples.rl "")
              (initialState (Examples.nameForm "" (Some Examples.nameRequired)))
              eq_refl eq_refl) as (_ & _ & _ & H).
  apply (H Examples.nameRequired "Name is required" eq_refl eq_refl).
Defined.



(** ** The Enter key in navigating mode *)

Lemma findIndex_from_spec {A : Type} (p : A → bool) (arr : list A) (i : Z) :
  (Js.findIndex_from p arr i = -1 ∧ ∀ x, x ∈ arr → p x = false)
  ∨ (∃ n x, Js.findIndex_from p arr i = i + Z.of_nat n
            ∧ arr !! n = Some x ∧ p x = true
            ∧ ∀ m y, (m < n)%nat → arr !! m = Some y → p y = false).
Proof.
  revert i. induction arr as [|a arr IH]; intros i; simpl.
  - left. split; [reflexivity|]. intros x Hx. inversion Hx.
  - destruct (p a) eqn:Hpa.
    + right. exists 0%nat, a. split; [lia|]. split; [reflexivity|].
      split; [assumption|]. intros m y Hm. lia.
    + destruct (IH (i + 1)) as [[Hr Hall] | (n & x & Hr & Hn & Hpx & Hlt)].
      * left. split; [exact Hr|]. intros x [->|Hx]%elem_of_cons; auto.
      * right. exists (S n), x. split; [lia|]. split; [assumption|].
        split; [assumption|].
        intros [|m] y Hm Hy; simpl in Hy.
        -- congruence.
        -- apply (Hlt m y); [lia|exact Hy].
Qed.

Lemma enter_not_submit (key : KeypressEvent) :
  isEnterKey key = true → isSubmitKey key = false.
Proof.
  intros H. destruct (isSubmitKey key) eqn:Hs; [|reflexivity].
  apply submit_not_enter in Hs. congruence.
Qed.

Lemma truthy_opt_Some (s : string) : Js.truthy s = true → Js.truthy_opt (Some s) = Some s.
Proof. simpl. intros ->. reflexivity. Qed.

Lemma truthy_nonempty (s : string) : s ≠ "" ↔ Js.truthy s = true.
Proof. destruct s; simpl; split; intros H; congruence. Qed.

Section Enter.

Variable config : SnippetConfig.

(** Enter on a select field. *)
Lemma enter_select_step (key : KeypressEvent) (rl : InquirerReadline) (st : State)
      (fieldName : string) :
  modeOf st = navigating →
  isEnterKey key = true →
  Js.index (fieldNames config) (activeFieldIndex st) = Some fieldName →
  Js.truthy fieldName = true →
  isSelectField config fieldName = true →
  userHandler config key rl st =
    let currentIndex :=
      Js.findIndex
        (fun opt => String.eqb (opt_value opt) (currentValueOf (values st) fieldName))
        (normalizeOptions (optionsOf (getField config fieldName))) in
    (mkState (status st) (errorMsg st) (values st) (activeFieldIndex st)
             (editingField st) (fieldInput st) (cursorPosition st)
             (Some fieldName)
             (if (0 <=? currentIndex)%Z then currentIndex else 0), []).
Proof.
  intros [Hs He]%modeOf_navigating Hkey Hidx Hname Hsel.
  unfold userHandler.
  rewrite Hs, He, (enter_not_submit key Hkey), Hkey, Hidx, Hname, Hsel.
  reflexivity.
Qed.

(** Enter on a text field. *)
Lemma enter_text_step (key : KeypressEvent) (rl : InquirerReadline) (st : State)
      (fieldName : string) :
  modeOf st = navigating →
  isEnterKey key = true →
  Js.index (fieldNames config) (activeFieldIndex st) = Some fieldName →
  Js.truthy fieldName = true →
  isSelectField config fieldName = false →
  userHandler config key rl st =
    let currentValue := currentValueOf (values st) fieldName in
    (mkState (status st) (errorMsg st) (values st) (activeFieldIndex st)
             (Some fieldName) currentValue (String.length currentValue)
             (selectingField st) (selectedOptionIndex st),
     [RlSetLine ""; RlWrite currentValue]).
Proof.
  intros [Hs He]%modeOf_navigating Hkey Hidx Hname Hsel.
  unfold userHandler.
  rewrite Hs, He, (enter_not_submit key Hkey), Hkey, Hidx, Hname, Hsel.
  reflexivity.
Qed.

(** Enter on a field whose name is falsy, or without an active field. *)
Lemma enter_noop_step (key : KeypressEvent) (rl : InquirerReadline) (st : State) :
  modeOf st = navigating →
  isEnterKey key = true →
  (Js.index (fieldNames config) (activeFieldIndex st) = None
   ∨ Js.index (fieldNames config) (activeFieldIndex st) = Some "") →
  userHandler config key rl st = (st, []).
Proof.
  intros [Hs He]%modeOf_navigating Hkey Hidx.
  unfold userHandler.
  rewrite Hs, He, (enter_not_submit key Hkey), Hkey.
  destruct Hidx as [-> | ->]; reflexivity.
Qed.


(** Only select fields are ever held in [selectingField]. *)
Lemma selecting_is_select_step (st : State) (ev : Event) :
  (∀ f, selectingField st = Some f → isSelectField config f = true) →
  ∀ f, selectingField (step config st ev) = Some f → isSelectField config f = true.
Proof.
  intros Hst f. destruct ev as [key rl]. unfold step, userHandler. simpl.
  repeat case_match; simpl; intros Hf; try discriminate Hf; try (apply Hst, Hf).
  all: injection Hf as <-; assumption.
Qed.

Lemma selecting_is_select (evs : list Event) (f : string) :
  selectingField (run config evs (initialState config)) = Some f →
  isSelectField config f = true.
Proof.
  revert f.
  apply (run_invariant config
           (fun st => ∀ f, selectingField st = Some f → isSelectField config f = true)).
  - intros st ev. apply selecting_is_select_step.
  - intros f Hf. discriminate Hf.
Qed.

Lemma modeOf_selecting (st : State) (f : string) :
  modeOf st = selectingOption f → selectingField st = Some f.
Proof.
  unfold modeOf, Js.truthy_opt.
  destruct (selectingField st) as [s|].
  - destruct (Js.truthy s); [intros [= ->]; reflexivity|].
    destruct (editingField st) as [e|]; [destruct (Js.truthy e)|]; discriminate.
  - destruct (editingField st) as [e|]; [destruct (Js.truthy e)|]; discriminate.
Qed.

(** C4. A field declared with an empty option list is a text field: from
    the initial state, no sequence of key events leads to selectingOption
    mode for it. Enter on it in navigating mode opens text editing of it
    (when its name is the empty string, Enter leaves the state as it is). *)
Theorem empty_options_never_selected (fieldName : string) (field : SnippetField) :
  getField config fieldName = Some field →
  field_options field = Some [] →
  (∀ evs, modeOf (run config evs (initialState config)) ≠ selectingOption fieldName)
  ∧ (∀ key rl st,
       modeOf st = navigating →
       isEnterKey key = true →
       Js.index (fieldNames config) (activeFieldIndex st) = Some fieldName →
       modeOf (step config st (key, rl))
       = if Js.truthy fieldName then editingText fieldName else navigating).
Proof.
  intros Hfield Hopts.
  assert (Hsel : isSelectField config fieldName = false).
  { unfold isSelectField. rewrite Hfield. simpl. rewrite Hopts. reflexivity. }
  split.
  - intros evs Hmode%modeOf_selecting%selecting_is_select. congruence.
  - intros key rl st Hnav Hkey Hidx. unfold step. simpl.
    destruct (Js.truthy fieldName) eqn:Hname.
    + rewrite (enter_text_step key rl st fieldName Hnav Hkey Hidx Hname Hsel).
      destruct (modeOf_navigating st Hnav) as [Hs _].
      unfold modeOf. simpl. rewrite Hs, Hname. reflexivity.
    + assert (fieldName = "") as -> by (destruct fieldName; [reflexivity|discriminate]).
      rewrite (enter_noop_step key rl st Hnav Hkey (or_intror Hidx)). exact Hnav.
Qed.

End Enter.



Lemma empty_options_never_selected_witness :
  let config := Examples.emptyOptionsForm in
  getField config "empty" = Some (mkSnippetField (Some "Empty") None None (Some []))
  ∧ modeOf (run config [(Examples.keyEnter, Examples.rl "")] (initialState config))
    ≠ selectingOption "empty"
  ∧ modeOf (step config (initialState config) (Examples.keyEnter, Examples.rl ""))
    = editingText "empty".
Proof.
  split; [reflexivity|].
  destruct (empty_options_never_selected Examples.emptyOptionsForm "empty"
              (mkSnippetField (Some "Empty") None None (Some [])) eq_refl eq_refl)
    as [Hnever Henter].
  split.
  - apply (Hnever [(Examples.keyEnter, Examples.rl "")]).
  - apply (Henter Examples.keyEnter (Examples.rl "")
                  (initialState Examples.emptyOptionsForm) eq_refl eq_refl eq_refl).
Defined.

(** ** Moving between fields *)

Section Navigation.

Variable config : SnippetConfig.

Let fieldCount : Z := Js.length (fieldNames config).

Lemma tab_step (key : KeypressEvent) (rl : InquirerReadline) (st : State) :
  modeOf st = navigating →
  key_name key = "tab" →
  userHandler config key rl st
  = (withActive (Js.rem (Js.add (activeFieldIndex st) 1) fieldCount) st, []).
Proof.
  intros [Hs He]%modeOf_navigating Hkey.
  destruct (named_key key _ Hkey) as (Hsub & Hent & Hup & Hdown).
  unfold userHandler. rewrite Hs, He, Hsub, Hent, Hup, Hdown, Hkey.
  simpl. rewrite andb_false_r. reflexivity.
Qed.

Lemma up_step (key : KeypressEvent) (rl : InquirerReadline) (st : State) :
  modeOf st = navigating →
  isUpKey key = true →
  userHandler config key rl st
  = (withActive (Js.max 0 (Js.add (activeFieldIndex st) (-1))) st, []).
Proof.
  intros [Hs He]%modeOf_navigating Hkey%up_key_name.
  destruct (named_key key _ Hkey) as (Hsub & Hent & Hup & Hdown).
  unfold userHandler. rewrite Hs, He, Hsub, Hent, Hup.
  simpl. rewrite andb_false_r. reflexivity.
Qed.

Lemma down_step (key : KeypressEvent) (rl : InquirerReadline) (st : State) :
  modeOf st = navigating →
  isDownKey key = true →
  userHandler config key rl st
  = (withActive (Js.min (fieldCount - 1) (Js.add (activeFieldIndex st) 1)) st, []).
Proof.
  intros [Hs He]%modeOf_navigating Hkey%down_key_name.
  destruct (named_key key _ Hkey) as (Hsub & Hent & Hup & Hdown).
  unfold userHandler. rewrite Hs, He, Hsub, Hent, Hup, Hdown.
  simpl. rewrite andb_false_r. reflexivity.
Qed.

Lemma withActive_withActive (i j : JsNum) (st : State) :
  withActive i (withActive j st) = withActive i st.
Proof. reflexivity. Qed.

Lemma withActive_same (st : State) : withActive (activeFieldIndex st) st = st.
Proof. destruct st. reflexivity. Qed.

(** [k] Tab presses from an index in range advance it by [k], modulo the
    number of fields. *)
Lemma tabs_advance (key : KeypressEvent) (rls : list InquirerReadline) :
  key_name key = "tab" →
  ∀ (st : State) (a : Z),
    modeOf st = navigating →
    activeFieldIndex st = Int a →
    (0 ≤ a < fieldCount)%Z →
    run config (map (pair key) rls) st
    = withActive (Int ((a + Z.of_nat (List.length rls)) mod fieldCount)) st.
Proof.
  intros Hkey. induction rls as [|rl rls IH]; intros st a Hnav Ha Hrange.
  - simpl. rewrite Z.add_0_r, Z.mod_small by lia.
    rewrite <- Ha. symmetry. apply withActive_same.
  - change (run config (map (pair key) (rl :: rls)) st)
      with (run config (map (pair key) rls) (step config st (key, rl))).
    unfold step. simpl fst. simpl snd.
    rewrite (tab_step key rl st Hnav Hkey), Ha. simpl fst.
    unfold Js.rem, Js.add.
    destruct (Z.eqb_spec fieldCount 0) as [Hz|_]; [lia|].
    rewrite Z.rem_mod_nonneg by lia.
    rewrite (IH _ ((a + 1) mod fieldCount)).
    + rewrite withActive_withActive. f_equal. f_equal.
      rewrite Zplus_mod_idemp_l. f_equal. simpl List.length. lia.
    + exact Hnav.
    + reflexivity.
    + apply Z.mod_pos_bound. lia.
Qed.

(** With at least one field, the active index of every state the prompt
    reaches is an index of the field list. *)
Lemma activeIndex_in_range_step (st : State) (ev : Event) :
  (1 ≤ fieldCount)%Z →
  (∃ a, activeFieldIndex st = Int a ∧ (0 ≤ a < fieldCount)%Z) →
  ∃ a, activeFieldIndex (step config st ev) = Int a ∧ (0 ≤ a < fieldCount)%Z.
Proof.
  intros Hcount (a & Ha & Hrange). destruct ev as [key rl].
  unfold step, userHandler. simpl.
  repeat case_match; simpl; rewrite ?Ha; simpl;
    try (exists a; split; [assumption || reflexivity|exact Hrange]).
  - eexists. split; [reflexivity|]. fold fieldCount. lia.
  - eexists. split; [reflexivity|]. fold fieldCount. lia.
  - fold fieldCount. destruct (Z.eqb_spec fieldCount 0) as [Hz|_]; [lia|].
    eexists. split; [reflexivity|].
    rewrite Z.rem_mod_nonneg by lia. apply Z.mod_pos_bound. lia.
Qed.

Lemma activeIndex_in_range (evs : list Event) :
  (1 ≤ fieldCount)%Z →
  ∃ a, activeFieldIndex (run config evs (initialState config)) = Int a
       ∧ (0 ≤ a < fieldCount)%Z.
Proof.
  intros Hcount.
  apply (run_invariant config
           (fun st => ∃ a, activeFieldIndex st = Int a ∧ (0 ≤ a < fieldCount)%Z)).
  - intros st ev. apply activeIndex_in_range_step, Hcount.
  - exists 0. split; [reflexivity|lia].
Qed.

(** C5. In navigating mode a Tab press sets the active index to
    (activeIndex + 1) mod fieldCount: it is JavaScript's [%] on the
    number cell, which for an index that is not negative and at least
    one field is the mathematical modulo. From an index in range,
    fieldCount Tab presses lead back to it, whatever the readline
    holds at each press; the index of every state reached from the
    initial state is in range when there is at least one field. *)
Theorem tab_wraps (key : KeypressEvent) (st : State) :
  modeOf st = navigating →
  key_name key = "tab" →
  (∀ rl, activeFieldIndex (step config st (key, rl))
         = Js.rem (Js.add (activeFieldIndex st) 1) fieldCount)
  ∧ (∀ rl a, activeFieldIndex st = Int a → (0 ≤ a)%Z → (1 ≤ fieldCount)%Z →
             activeFieldIndex (step config st (key, rl))
             = Int ((a + 1) mod fieldCount))
  ∧ (∀ rls a, activeFieldIndex st = Int a → (0 ≤ a < fieldCount)%Z →
              Z.of_nat (List.length rls) = fieldCount →
              activeFieldIndex (run config (map (pair key) rls) st) = Int a
              ∧ modeOf (run config (map (pair key) rls) st) = navigating)
  ∧ (∀ evs rls, st = run config evs (initialState config) →
                (1 ≤ fieldCount)%Z →
                Z.of_nat (List.length rls) = fieldCount →
                activeFieldIndex (run config (map (pair key) rls) st)
                = activeFieldIndex st).
Proof.
  intros Hnav Hkey.
  assert (Hcycle : ∀ rls a, activeFieldIndex st = Int a → (0 ≤ a < fieldCount)%Z →
                Z.of_nat (List.length rls) = fieldCount →
                activeFieldIndex (run config (map (pair key) rls) st) = Int a
                ∧ modeOf (run config (map (pair key) rls) st) = navigating).
  { intros rls a Ha Hrange Hlen.
    rewrite (tabs_advance key rls Hkey st a Hnav Ha Hrange), Hlen.
    split; [|exact Hnav]. simpl. f_equal.
    rewrite <- (Z.mul_1_l fieldCount) at 1.
    rewrite Z.mod_add by lia. apply Z.mod_small. lia. }
  split; [|split; [|split; [exact Hcycle|]]].
  - intros rl. unfold step. simpl. rewrite (tab_step key rl st Hnav Hkey).
    reflexivity.
  - intros rl a Ha Hpos Hcount. unfold step. simpl.
    rewrite (tab_step key rl st Hnav Hkey), Ha. simpl.
    destruct (Z.eqb_spec fieldCount 0) as [Hz|_]; [lia|].
    rewrite Z.rem_mod_nonneg by lia. reflexivity.
  - intros evs rls Hst Hcount Hlen.
    destruct (activeIndex_in_range evs Hcount) as (a & Ha & Hrange).
    rewrite <- Hst in Ha. rewrite Ha.
    apply (Hcycle rls a Ha Hrange Hlen).
Qed.

(** C6. In navigating mode with at least one field and an index in
    range, Up sets the index to max(0, activeIndex - 1) and Down to
    min(fieldCount - 1, activeIndex + 1); after every sequence of Up and
    Down presses the index is still in [0, fieldCount - 1]. *)
Theorem arrows_clamp (st : State) (a : Z) :
  modeOf st = navigating →
  (1 ≤ fieldCount)%Z →
  activeFieldIndex st = Int a →
  (0 ≤ a < fieldCount)%Z →
  (∀ key rl, isUpKey key = true →
             activeFieldIndex (step config st (key, rl)) = Int (Z.max 0 (a - 1)))
  ∧ (∀ key rl, isDownKey key = true →
               activeFieldIndex (step config st (key, rl))
               = Int (Z.min (fieldCount - 1) (a + 1)))
  ∧ (∀ evs, Forall (fun ev : Event => isUpKey (fst ev) = true
                                      ∨ isDownKey (fst ev) = true) evs →
            ∃ b, activeFieldIndex (run config evs st) = Int b
                 ∧ (0 ≤ b < fieldCount)%Z).
Proof.
  intros Hnav Hcount Ha Hrange. split; [|split].
  - intros key rl Hkey. unfold step. simpl.
    rewrite (up_step key rl st Hnav Hkey), Ha. reflexivity.
  - intros key rl Hkey. unfold step. simpl.
    rewrite (down_step key rl st Hnav Hkey), Ha. reflexivity.
  - intros evs. revert st a Hnav Ha Hrange.
    induction evs as [|[key rl] evs IH]; intros st a Hnav Ha Hrange Hkeys.
    + exists a. split; [exact Ha|exact Hrange].
    + apply Forall_cons in Hkeys as [Hkey Hkeys]. simpl in Hkey.
      change (run config ((key, rl) :: evs) st)
        with (run config evs (step config st (key, rl))).
      unfold step. simpl fst. simpl snd.
      destruct Hkey as [Hkey|Hkey].
      * rewrite (up_step key rl st Hnav Hkey), Ha. simpl fst.
        apply (IH _ (Z.max 0 (a - 1))); [exact Hnav|reflexivity|lia|exact Hkeys].
      * rewrite (down_step key rl st Hnav Hkey), Ha. simpl fst.
        apply (IH _ (Z.min (fieldCount - 1) (a + 1)));
          [exact Hnav|reflexivity|lia|exact Hkeys].
Qed.

End Navigation.

Lemma tab_wraps_witness :
  let config := Examples.colorForm in
  let st := withActive (Int 2) (initialState config) in
  modeOf st = navigating
  ∧ key_name Examples.keyTab = "tab"
  ∧ activeFieldIndex (step config st (Examples.keyTab, Examples.rl "")) = Int 0
  ∧ activeFieldIndex
      (run config (map (pair Examples.keyTab)
                       [Examples.rl ""; Examples.rl "x"; Examples.rl ""]) st)
    = Int 2.
Proof.
  split; [reflexivity|]. split; [reflexivity|].
  destruct (tab_wraps Examples.colorForm Examples.keyTab
              (withActive (Int 2) (initialState Examples.colorForm))
              eq_refl eq_refl) as (_ & Hone & Hall & _).
  split.
  - apply (Hone (Examples.rl "") 2 eq_refl); reflexivity || (intros H; discriminate H).
  - apply (Hall [Examples.rl ""; Examples.rl "x"; Examples.rl ""] 2 eq_refl).
    + split; [intros H; discriminate H|reflexivity].
    + reflexivity.
Defined.

Lemma arrows_clamp_witness :
  let config := Examples.colorForm in
  let st := initialState config in
  modeOf st = navigating
  ∧ (1 ≤ Js.length (fieldNames config))%Z
  ∧ activeFieldIndex st = Int 0
  ∧ activeFieldIndex (step config st (Examples.keyUp, Examples.rl "")) = Int 0
  ∧ activeFieldIndex (step config st (Examples.keyDown, Examples.rl "")) = Int 1.
Proof.
  split; [reflexivity|]. split; [intros H; discriminate H|]. split; [reflexivity|].
  destruct (arrows_clamp Examples.colorForm (initialState Examples.colorForm) 0
              eq_refl) as (Hup & Hdown & _).
  - intros H; discriminate H.
  - reflexivity.
  - split; [intros H; discriminate H|reflexivity].
  - split.
    + apply (Hup Examples.keyUp (Examples.rl "") eq_refl).
    + apply (Hdown Examples.keyDown (Examples.rl "") eq_refl).
Defined.

(** ** Editing a text field and cancelling *)

Section EditCancel.

Variable config : SnippetConfig.

(** Only an Enter key changes the value map, in every mode. *)
Lemma values_step_nonenter (key : KeypressEvent) (rl : InquirerReadline) (st : State) :
  isEnterKey key = false →
  values (step config st (key, rl)) = values st.
Proof.
  intros Hkey. unfold step, userHandler. simpl. rewrite Hkey.
  repeat case_match; reflexivity.
Qed.

Lemma values_run_nonenter (evs : list Event) (st : State) :
  Forall (fun ev : Event => isEnterKey (fst ev) = false) evs →
  values (run config evs st) = values st.
Proof.
  revert st. induction evs as [|[key rl] evs IH]; intros st Hkeys; [reflexivity|].
  apply Forall_cons in Hkeys as [Hkey Hkeys]. simpl in Hkey.
  change (run config ((key, rl) :: evs) st)
    with (run config evs (step config st (key, rl))).
  rewrite (IH _ Hkeys). apply values_step_nonenter, Hkey.
Qed.

(** Without an Enter key the prompt does not leave navigating mode. *)
Lemma navigating_step_nonenter (key : KeypressEvent) (rl : InquirerReadline)
      (st : State) :
  modeOf st = navigating →
  isEnterKey key = false →
  modeOf (step config st (key, rl)) = navigating.
Proof.
  intros Hnav Hkey. destruct (modeOf_navigating st Hnav) as [Hs He].
  unfold step, userHandler. simpl. rewrite Hs, He, Hkey.
  repeat case_match; unfold modeOf; simpl; rewrite ?Hs, ?He; reflexivity.
Qed.

(** In editing mode every key but Enter and Escape goes to the line
    buffer: the prompt reads the buffer back and stays in the mode. *)
Lemma editing_step_other (key : KeypressEvent) (rl : InquirerReadline) (st : State)
      (fieldName : string) :
  modeOf st = editingText fieldName →
  isEnterKey key = false →
  key_name key ≠ "escape" →
  userHandler config key rl st
  = (mkState (status st) (errorMsg st) (values st) (activeFieldIndex st)
             (editingField st) (line rl) (String.length (line rl))
             (selectingField st) (selectedOptionIndex st), []).
Proof.
  intros [Hs He]%modeOf_editing Hkey Hesc%String.eqb_neq.
  unfold userHandler. rewrite Hs, He, Hkey, Hesc. reflexivity.
Qed.

Lemma editing_step_escape (key : KeypressEvent) (rl : InquirerReadline) (st : State)
      (fieldName : string) :
  modeOf st = editingText fieldName →
  key_name key = "escape" →
  userHandler config key rl st
  = (mkState (status st) (errorMsg st) (values st) (activeFieldIndex st)
             None "" 0%nat (selectingField st) (selectedOptionIndex st),
     [RlWrite ""]).
Proof.
  intros [Hs He]%modeOf_editing Hkey.
  destruct (named_key key _ Hkey) as (_ & Hent & _).
  unfold userHandler. rewrite Hs, He, Hent, Hkey. reflexivity.
Qed.

Lemma editing_run_other (evs : list Event) (st : State) (fieldName : string) :
  modeOf st = editingText fieldName →
  Forall (fun ev : Event => isEnterKey (fst ev) = false
                            ∧ key_name (fst ev) ≠ "escape") evs →
  modeOf (run config evs st) = editingText fieldName.
Proof.
  revert st. induction evs as [|[key rl] evs IH]; intros st Hmode Hkeys; [exact Hmode|].
  apply Forall_cons in Hkeys as [[Hkey Hesc] Hkeys]. simpl in Hkey, Hesc.
  change (run config ((key, rl) :: evs) st)
    with (run config evs (step config st (key, rl))).
  apply IH; [|exact Hkeys]. unfold step. simpl.
  rewrite (editing_step_other key rl st fieldName Hmode Hkey Hesc).
  exact Hmode.
Qed.

Lemma navigating_run_nonenter (evs : list Event) (st : State) :
  modeOf st = navigating →
  Forall (fun ev : Event => isEnterKey (fst ev) = false) evs →
  modeOf (run config evs st) = navigating.
Proof.
  revert st. induction evs as [|[key rl] evs IH]; intros st Hmode Hkeys; [exact Hmode|].
  apply Forall_cons in Hkeys as [Hkey Hkeys]. simpl in Hkey.
  change (run config ((key, rl) :: evs) st)
    with (run config evs (step config st (key, rl))).
  apply IH; [|exact Hkeys]. apply navigating_step_nonenter; assumption.
Qed.

(** C7. For every text field and every value map: Enter on the field in
    navigating mode, any keys other than Enter and Escape (with whatever
    the line buffer holds after each), then Escape, lead back to
    navigating mode with the value map as it was before the edit. In
    between the prompt is editing that field (for a name that is not the
    empty string). *)
Theorem edit_cancel_keeps_values
        (keyEnter keyEscape : KeypressEvent) (rlEnter rlEscape : InquirerReadline)
        (others : list Event) (st : State) (fieldName : string) :
  modeOf st = navigating →
  Js.index (fieldNames config) (activeFieldIndex st) = Some fieldName →
  isSelectField config fieldName = false →
  isEnterKey keyEnter = true →
  key_name keyEscape = "escape" →
  Forall (fun ev : Event => isEnterKey (fst ev) = false
                            ∧ key_name (fst ev) ≠ "escape") others →
  let st' := run config ((keyEnter, rlEnter) :: others ++ [(keyEscape, rlEscape)]) st in
  (fieldName ≠ "" →
   modeOf (run config ((keyEnter, rlEnter) :: others) st) = editingText fieldName)
  ∧ modeOf st' = navigating
  ∧ values st' = values st.
Proof.
  intros Hnav Hidx Hsel Henter Hesc Hothers st'. subst st'.
  assert (HescNotEnter : isEnterKey keyEscape = false).
  { destruct (named_key keyEscape _ Hesc) as (_ & -> & _). reflexivity. }
  assert (Hothers' : Forall (fun ev : Event => isEnterKey (fst ev) = false) others).
  { eapply Forall_impl; [exact Hothers|]. intros ev [H _]. exact H. }
  change (run config ((keyEnter, rlEnter) :: others ++ [(keyEscape, rlEscape)]) st)
    with (run config (others ++ [(keyEscape, rlEscape)])
              (step config st (keyEnter, rlEnter))).
  change (run config ((keyEnter, rlEnter) :: others) st)
    with (run config others (step config st (keyEnter, rlEnter))).
  rewrite run_app.
  change (run config [(keyEscape, rlEscape)]
              (run config others (step config st (keyEnter, rlEnter))))
    with (step config (run config others (step config st (keyEnter, rlEnter)))
               (keyEscape, rlEscape)).
  set (opened := step config st (keyEnter, rlEnter)).
  assert (Hvals : values opened = values st).
  { subst opened. unfold step. simpl.
    destruct (Js.truthy fieldName) eqn:Hname.
    - rewrite (enter_text_step config keyEnter rlEnter st fieldName
                 Hnav Henter Hidx Hname Hsel). reflexivity.
    - assert (fieldName = "") as -> by (destruct fieldName; [reflexivity|discriminate]).
      rewrite (enter_noop_step config keyEnter rlEnter st Hnav Henter (or_intror Hidx)).
      reflexivity. }
  assert (Hmode : modeOf opened
                  = if Js.truthy fieldName then editingText fieldName else navigating).
  { subst opened. unfold step. simpl.
    destruct (Js.truthy fieldName) eqn:Hname.
    - rewrite (enter_text_step config keyEnter rlEnter st fieldName
                 Hnav Henter Hidx Hname Hsel).
      destruct (modeOf_navigating st Hnav) as [Hs _].
      unfold modeOf. simpl. rewrite Hs, Hname. reflexivity.
    - assert (fieldName = "") as -> by (destruct fieldName; [reflexivity|discriminate]).
      rewrite (enter_noop_step config keyEnter rlEnter st Hnav Henter (or_intror Hidx)).
      exact Hnav. }
  split; [|split].
  - intros Hname%truthy_nonempty. rewrite Hname in Hmode.
    apply editing_run_other; assumption.
  - destruct (Js.truthy fieldName).
    + pose proof (editing_run_other others opened fieldName Hmode Hothers) as Hmid.
      unfold step. simpl.
      rewrite (editing_step_escape keyEscape rlEscape _ fieldName Hmid Hesc).
      destruct (modeOf_editing _ _ Hmid) as [Hs _].
      unfold modeOf. simpl. rewrite Hs. reflexivity.
    + apply navigating_step_nonenter; [|exact HescNotEnter].
      apply navigating_run_nonenter; assumption.
  - rewrite values_step_nonenter by exact HescNotEnter.
    rewrite values_run_nonenter by exact Hothers'. exact Hvals.
Qed.

End EditCancel.

Lemma edit_cancel_keeps_values_witness :
  let config := Examples.colorForm in
  let st := initialState config in
  let typed := [(Examples.keyChar "x", Examples.rl "Annx");
                (Examples.keyTab, Examples.rl "Annx");
                (Examples.keyCtrlS, Examples.rl "Annx")] in
  modeOf st = navigating
  ∧ Js.index (fieldNames config) (activeFieldIndex st) = Some "who"
  ∧ isSelectField config "who" = false
  ∧ modeOf (run config ((Examples.keyEnter, Examples.rl "") :: typed) st)
    = editingText "who"
  ∧ values (run config ((Examples.keyEnter, Examples.rl "") :: typed
                        ++ [(Examples.keyEscape, Examples.rl "Annx")]) st)
    = values st.
Proof.
  do 3 (split; [reflexivity|]).
  destruct (edit_cancel_keeps_values Examples.colorForm
              Examples.keyEnter Examples.keyEscape (Examples.rl "") (Examples.rl "Annx")
              [(Examples.keyChar "x", Examples.rl "Annx");
               (Examples.keyTab, Examples.rl "Annx");
               (Examples.keyCtrlS, Examples.rl "Annx")]
              (initialState Examples.colorForm) "who"
              eq_refl eq_refl eq_refl eq_refl eq_refl) as (Hmid & _ & Hvals).
  - repeat constructor; simpl; intros H; discriminate H.
  - split; [apply Hmid; intros H; discriminate H|exact Hvals].
Defined.

(** ** Placeholders and the substitution pattern *)

Lemma isEscaped_syntax (c : ascii) : RegExp.isEscaped c = RegExp.isSyntaxCharacter c.
Proof. destruct c as [[] [] [] [] [] [] [] []]; reflexivity. Qed.

(** The escaped source of any text is a pattern for that very text: no
    character of a field name is read as an operator. *)
Lemma escape_literal (s : string) : RegExp.literal (RegExp.escape s) = Some s.
Proof.
  induction s as [|c s IH]; [reflexivity|].
  simpl RegExp.escape. destruct (RegExp.isEscaped c) eqn:Hc.
  - change (RegExp.literal (String "\" (String c (RegExp.escape s))))
      with (if RegExp.isSyntaxCharacter c
            then String c <$> RegExp.literal (RegExp.escape s) else None).
    rewrite <- isEscaped_syntax, Hc, IH. reflexivity.
  - rewrite isEscaped_syntax in Hc.
    destruct c as [[] [] [] [] [] [] [] []]; try discriminate Hc;
      simpl; rewrite IH; reflexivity.
Qed.

Lemma getSubstitution_noDollar (matched before after replacement : string) :
  noDollar replacement = true →
  RegExp.getSubstitution matched before after replacement = replacement.
Proof.
  induction replacement as [|c r IH]; [reflexivity|].
  simpl noDollar. intros [Hc Hr]%andb_prop. specialize (IH Hr).
  destruct c as [[] [] [] [] [] [] [] []]; try discriminate Hc;
    simpl; rewrite IH; reflexivity.
Qed.

Lemma replace_from_noDollar (needle replacement : string) :
  needle ≠ "" →
  noDollar replacement = true →
  ∀ rest before skip,
    RegExp.replace_from needle replacement before rest skip
    = substituteToken_from needle replacement rest skip.
Proof.
  intros Hneedle Hrepl.
  destruct needle as [|n needle]; [contradiction|].
  induction rest as [|c rest IH]; intros before skip; [reflexivity|].
  cbn [RegExp.replace_from substituteToken_from].
  destruct skip as [|k]; [|apply IH].
  destruct (String.prefix (String n needle) (String c rest)).
  - rewrite getSubstitution_noDollar by exact Hrepl. rewrite IH. reflexivity.
  - rewrite IH. reflexivity.
Qed.

Lemma placeholderOf_nonempty (fieldName : string) : placeholderOf fieldName ≠ "".
Proof. discriminate. Qed.

(** One turn of the loop with a display fragment free of dollar signs:
    every occurrence of the placeholder gives way to the fragment, for
    every field name. *)
Lemma renderField_noDollar (config : SnippetConfig) (st : State)
      (rendered fieldName : string) (index : nat) :
  noDollar (displayValue config st fieldName index) = true →
  renderField config st rendered fieldName index
  = Some (substituteToken (placeholderOf fieldName)
                          (displayValue config st fieldName index) rendered).
Proof.
  intros Hfrag. unfold renderField, RegExp.replace.
  rewrite escape_literal. simpl.
  rewrite replace_from_noDollar;
    [reflexivity|apply placeholderOf_nonempty|exact Hfrag].
Qed.

Lemma renders_exactly_noDollar (config : SnippetConfig) (st : State)
      (fieldName : string) :
  noDollar (displayValue config st fieldName 0) = true →
  rendersFragmentExactly config st fieldName.
Proof.
  intros Hfrag Hnames. unfold renderSnippet. rewrite Hnames. simpl.
  rewrite (renderField_noDollar config st _ fieldName 0 Hfrag). reflexivity.
Qed.

(** Rendering never fails: the pattern of every field is in the literal
    fragment. *)
Lemma renderFields_total (config : SnippetConfig) (st : State) (names : list string) :
  ∀ rendered index, is_Some (renderFields config st rendered names index).
Proof.
  induction names as [|n names IH]; intros rendered index; [eexists; reflexivity|].
  simpl. unfold renderField, RegExp.replace. rewrite escape_literal. simpl. apply IH.
Qed.

(** C8 on the code. The field named [field+plus] holds [echo $$]; its
    display fragment is that text in inverted colours, but the frame
    shows [echo $]: the fragment is handed to [replace] as a replacement
    pattern, where a doubled dollar sign stands for one. The name itself
    is matched literally, and the bare [field+plus] is left alone. *)
Theorem dollar_value_not_rendered_exactly :
  let config := Examples.plusForm "echo $$" in
  let st := initialState config in
  RegExp.literal (RegExp.escape (placeholderOf "field+plus")) = Some "{{field+plus}}"
  ∧ displayValue config st "field+plus" 0 = inverted "echo $$"
  ∧ renderSnippet config st = Some (inverted "echo $" +:+ " and field+plus")
  ∧ substituteToken (placeholderOf "field+plus")
                    (displayValue config st "field+plus" 0) (template config)
    = inverted "echo $$" +:+ " and field+plus"
  ∧ ¬ rendersFragmentExactly config st "field+plus".
Proof.
  split; [reflexivity|]. split; [reflexivity|]. split; [reflexivity|].
  split; [reflexivity|].
  intros H. specialize (H eq_refl). vm_compute in H. discriminate H.
Qed.

(** The same form with a value free of dollar signs is rendered as the
    specification says. *)
Lemma plus_value_rendered_exactly :
  let config := Examples.plusForm "plus" in
  let st := initialState config in
  rendersFragmentExactly config st "field+plus"
  ∧ renderSnippet config st = Some (inverted "plus" +:+ " and field+plus").
Proof.
  split; [|reflexivity].
  apply renders_exactly_noDollar. reflexivity.
Qed.

(** ** The error line *)

Section ErrorLine.

Variable config : SnippetConfig.

Lemma errorLine_nonempty (st : State) :
  errorLine config st ≠ "" →
  ∃ msg, errorMsg st = Some msg ∧ msg ≠ "".
Proof.
  unfold errorLine, Js.truthy_opt. destruct (errorMsg st) as [msg|].
  - destruct msg as [|c msg]; simpl; [congruence|].
    intros _. eexists. split; [reflexivity|discriminate].
  - congruence.
Qed.

Lemma errorLine_message (st : State) (msg : string) :
  errorMsg st = Some msg → msg ≠ "" →
  errorLine config st = style_error (theme config) msg.
Proof.
  intros Hmsg Hne%truthy_nonempty. unfold errorLine. rewrite Hmsg.
  simpl. rewrite Hne. reflexivity.
Qed.

(** C9. Only the boolean [true] resolves the prompt. When the predicate
    returns the empty string, the submit fails: nothing is resolved, the
    status is [idle], the mode is navigating and the error message is the
    empty string; the frame of that state has no error line, its body
    being the snippet, the option list and the help line. An error line
    is in the frame only for an error message that is a non-empty
    string. *)
Theorem empty_message_fails_silently
        (key : KeypressEvent) (rl : InquirerReadline) (st : State)
        (f : gmap string string → ValidationResult) :
  modeOf st = navigating →
  isSubmitKey key = true →
  validate config = Some f →
  f (values st) = VString "" →
  let st' := fst (userHandler config key rl st) in
  let effs := snd (userHandler config key rl st) in
  effs = []
  ∧ status st' = idle
  ∧ errorMsg st' = Some ""
  ∧ modeOf st' = navigating
  ∧ errorLine config st' = ""
  ∧ (∀ snippet, renderSnippet config st' = Some snippet →
       renderFrame config st'
       = Some (Js.join " "
                 (Js.filter_truthy
                    [theme_prefix (theme config) idle;
                     style_message (theme config) (message config) idle]),
               Js.join newline
                 (Js.filter_truthy
                    [snippet; renderSelectOptions config st'; helpText config st'])))
  ∧ (∀ key0 rl0 st0, modeOf st0 = navigating → isSubmitKey key0 = true →
       In (Done (values st0)) (snd (userHandler config key0 rl0 st0))
       ↔ runValidate config (values st0) = VBool true)
  ∧ (∀ st0, errorLine config st0 ≠ "" → ∃ msg, errorMsg st0 = Some msg ∧ msg ≠ "").
Proof.
  intros Hnav Hkey Hval Hres st' effs. subst st' effs.
  rewrite (submit_step config key rl st Hnav Hkey).
  unfold runValidate. rewrite Hval, Hres. simpl fst. simpl snd.
  split; [reflexivity|]. split; [reflexivity|]. split; [reflexivity|].
  split; [exact Hnav|]. split; [reflexivity|]. split; [|split].
  - intros snippet Hsnip. unfold renderFrame. rewrite Hsnip. simpl mbind.
    change (errorLine config (withError (Some "") (withStatus idle st))) with "".
    change (status (withError (Some "") (withStatus idle st))) with idle.
    reflexivity.
  - intros key0 rl0 st0 Hnav0 Hkey0.
    rewrite (submit_step config key0 rl0 st0 Hnav0 Hkey0).
    unfold runValidate. rewrite Hval.
    destruct (f (values st0)) as [[|]|msg]; simpl.
    + split; [reflexivity|]. intros _. left. reflexivity.
    + split; [contradiction|discriminate].
    + split; [contradiction|discriminate].
  - apply errorLine_nonempty.
Qed.

End ErrorLine.

Lemma empty_message_fails_silently_witness :
  let config := Examples.nameForm "" (Some Examples.nameOrEmptyMessage) in
  let st := initialState config in
  modeOf st = navigating
  ∧ isSubmitKey Examples.keyCtrlS = true
  ∧ validate config = Some Examples.nameOrEmptyMessage
  ∧ Examples.nameOrEmptyMessage (values st) = VString ""
  ∧ snd (userHandler config Examples.keyCtrlS (Examples.rl "") st) = []
  ∧ errorMsg (fst (userHandler config Examples.keyCtrlS (Examples.rl "") st)) = Some "".
Proof.
  do 4 (split; [reflexivity|]).
  destruct (empty_message_fails_silently
              (Examples.nameForm "" (Some Examples.nameOrEmptyMessage))
              Examples.keyCtrlS (Examples.rl "")
              (initialState (Examples.nameForm "" (Some Examples.nameOrEmptyMessage)))
              Examples.nameOrEmptyMessage eq_refl eq_refl eq_refl eq_refl)
    as (Heffs & _ & Herr & _).
  split; [exact Heffs|exact Herr].
Defined.

(** ** The order of substitution *)

(** C10. The loop of [renderSnippet] hands what one field rendered to the
    next field, in declaration order. With fields [a] then [b], the
    template [{{a}}] and the value of [a] holding the placeholder of [b],
    one pass renders the fragment of [b] inside the value of [a]; with the
    fields declared [b] then [a], the placeholder of [b] stays. *)
Theorem substitution_is_sequential :
  (∀ config st rendered fieldName rest index,
     renderFields config st rendered (fieldName :: rest) index
     = renderField config st rendered fieldName index
         ≫= fun rendered' => renderFields config st rendered' rest (S index))
  ∧ (let config := Examples.nestedForm in
     let st := initialState config in
     fieldNames config = ["a"; "b"]
     ∧ values st !! "a" = Some "see {{b}}"
     ∧ displayValue config st "a" 0 = inverted "see {{b}}"
     ∧ displayValue config st "b" 1 = "X"
     ∧ renderField config st (template config) "a" 0 = Some (inverted "see {{b}}")
     ∧ renderSnippet config st = Some (inverted "see X"))
  ∧ (let config := Examples.nestedFormReversed in
     let st := initialState config in
     fieldNames config = ["b"; "a"]
     ∧ renderSnippet config st = Some "see {{b}}").
Proof.
  split; [reflexivity|]. split.
  - repeat (split; [reflexivity|]). reflexivity.
  - split; reflexivity.
Qed.

(** ** States the prompt reaches *)

Lemma index_elem {A : Type} (arr : list A) (i : JsNum) (x : A) :
  Js.index arr i = Some x → x ∈ arr.
Proof.
  destruct i as [z|]; simpl; [|discriminate].
  destruct (0 <=? z)%Z; [|discriminate].
  apply list_elem_of_lookup_2.
Qed.

Lemma findIndex_from_bound {A : Type} (p : A → bool) (arr : list A) (i : Z) :
  (0 ≤ i)%Z →
  Js.findIndex_from p arr i = (-1)%Z
  ∨ (i ≤ Js.findIndex_from p arr i < i + Js.length arr)%Z.
Proof.
  intros Hi.
  destruct (findIndex_from_spec p arr i) as [[Hr _] | (n & x & Hr & Hn & _)].
  - left. exact Hr.
  - right. rewrite Hr. apply lookup_lt_Some in Hn. unfold Js.length. lia.
Qed.

Lemma normalizeOptions_length (os : list RawOption) :
  Js.length (normalizeOptions os) = Js.length os.
Proof. unfold Js.length, normalizeOptions. rewrite length_map. reflexivity. Qed.

Lemma isSelectField_options (config : SnippetConfig) (f : string) :
  isSelectField config f = true →
  (0 < Js.length (normalizeOptions (optionsOf (getField config f))))%Z.
Proof.
  unfold isSelectField, optionsOf. rewrite normalizeOptions_length.
  destruct (getField config f ≫= field_options) as [os|]; [|discriminate].
  apply Z.ltb_lt.
Qed.

Lemma dom_initialValues_from (config : SnippetConfig) (names : list string)
      (acc : gmap string string) :
  dom (fold_left
         (fun acc name =>
            <[name := Js.or_else (getField config name ≫= field_initial) ""]> acc)
         names acc)
  = (list_to_set names ∪ dom acc : gset string).
Proof.
  revert acc. induction names as [|n names IH]; intros acc; simpl.
  - symmetry. apply (left_id_L ∅ (∪)).
  - rewrite IH, dom_insert_L.
    rewrite (assoc_L (∪)). f_equal. apply (comm_L (∪)).
Qed.

Lemma consistent_initial (config : SnippetConfig) :
  consistent config (initialState config).
Proof.
  constructor; simpl; try discriminate; try reflexivity.
  unfold initialValues. rewrite dom_initialValues_from, dom_empty_L.
  apply (right_id_L ∅ (∪)).
Qed.

Lemma dom_insert_field (config : SnippetConfig) (vs : gmap string string)
      (i : JsNum) (f v : string) :
  Js.index (fieldNames config) i = Some f →
  dom vs = (list_to_set (fieldNames config) : gset string) →
  dom (<[f := v]> vs) = (list_to_set (fieldNames config) : gset string).
Proof.
  intros Hf%index_elem Hdom. rewrite dom_insert_L, Hdom.
  apply subseteq_union_1_L, singleton_subseteq_l, elem_of_list_to_set, Hf.
Qed.

Ltac consistent_case :=
  constructor; simpl; intros; simplify_eq;
  try discriminate; try reflexivity; try assumption;
  try (eapply dom_insert_field; eassumption);
  repeat split; try assumption; try reflexivity; try lia;
  try (apply isSelectField_options; assumption).

Lemma consistent_step (config : SnippetConfig) (st : State) (ev : Event) :
  consistent config st → consistent config (step config st ev).
Proof.
  intros [He Hs Hr Hc Hd]. destruct ev as [key rl].
  destruct st as [sta err vs act ed inp cur sel ix]. simpl in *.
  unfold step, userHandler. simpl.
  destruct sel as [sel|]; [|specialize (Hr eq_refl); subst ix].
  - destruct (Hs sel eq_refl) as (Hname & Hidx & Hsel & Hed & Hix). subst ed.
    simpl. rewrite Hname.
    repeat case_match; simpl; consistent_case.
  - simpl. destruct ed as [ed|].
    + destruct (He ed eq_refl) as (Hname & Hidx & Hsel & _).
      simpl. rewrite Hname.
      repeat case_match; simpl; consistent_case.
    + simpl. repeat case_match; simpl; consistent_case.
      match goal with
      | |- (Js.findIndex ?p ?arr < _)%Z =>
          destruct (findIndex_from_bound p arr 0 ltac:(lia)) as [Hm|Hm];
          unfold Js.findIndex in *; [|lia]
      end.
      match goal with H : (0 <=? _)%Z = true |- _ => apply Z.leb_le in H end.
      lia.
Qed.

Lemma consistent_run (config : SnippetConfig) (evs : list Event) :
  consistent config (run config evs (initialState config)).
Proof.
  apply (run_invariant config (consistent config)).
  - intros st ev. apply consistent_step.
  - apply consistent_initial.
Qed.

Lemma modeOf_editing_cells (st : State) (f : string) :
  modeOf st = editingText f → editingField st = Some f.
Proof.
  intros [_ He]%modeOf_editing. unfold Js.truthy_opt in He.
  destruct (editingField st) as [e|]; [|discriminate].
  destruct (Js.truthy e); [|discriminate]. exact He.
Qed.

Lemma initialValues_from_lookup (config : SnippetConfig) (names : list string)
      (acc : gmap string string) (name : string) :
  fold_left
    (fun acc name =>
       <[name := Js.or_else (getField config name ≫= field_initial) ""]> acc)
    names acc !! name
  = if decide (name ∈ names)
    then Some (Js.or_else (getField config name ≫= field_initial) "")
    else acc !! name.
Proof.
  revert acc. induction names as [|n names IH]; intros acc; simpl.
  - destruct (decide (name ∈ [])) as [H|_]; [inversion H|reflexivity].
  - rewrite IH.
    destruct (decide (name ∈ names)) as [Hin|Hnin].
    + rewrite decide_True by (right; exact Hin). reflexivity.
    + destruct (decide (n = name)) as [->|Hne].
      * rewrite decide_True by left. apply lookup_insert_eq.
      * rewrite decide_False by (intros [?|?]%elem_of_cons; congruence).
        apply lookup_insert_ne, Hne.
Qed.

(** X1. For a configuration without a field keyed [__proto__]: after
    initialization the value map holds, for every declared field, its
    [initial] text when that is a non-empty string and the empty string
    otherwise; it holds nothing for any other name. *)
Theorem initialValues_lookup (config : SnippetConfig) (name : string) :
  ordinaryNames config = true →
  values (initialState config) !! name
  = if decide (name ∈ fieldNames config)
    then Some (Js.or_else (getField config name ≫= field_initial) "")
    else None.
Proof.
  intros _. simpl. unfold initialValues. rewrite initialValues_from_lookup.
  destruct (decide (name ∈ fieldNames config)); [reflexivity|apply lookup_empty].
Qed.

(** X2. For a configuration without a field keyed [__proto__]: whatever
    keys are pressed, the value map keeps exactly one entry per declared
    field: no entry is ever removed and none is added for a name that is
    not a field. *)
Theorem value_map_keys_fixed (config : SnippetConfig) (evs : list Event)
        (name : string) :
  ordinaryNames config = true →
  is_Some (values (run config evs (initialState config)) !! name)
  ↔ name ∈ fieldNames config.
Proof.
  intros _. rewrite <- elem_of_dom.
  rewrite (one_entry_per_field _ _ (consistent_run config evs)).
  apply elem_of_list_to_set.
Qed.

(** X3. In every state the prompt reaches, the mode agrees with the active
    field: a field being edited is the field at the active index and is
    not a select field, a field being selected is the field at the active
    index and is a select field, and the two cells [editingField] and
    [selectingField] are never set together. *)
Theorem mode_agrees_with_active_field (config : SnippetConfig) (evs : list Event) :
  let st := run config evs (initialState config) in
  (∀ f, modeOf st = editingText f →
        Js.index (fieldNames config) (activeFieldIndex st) = Some f
        ∧ isSelectField config f = false)
  ∧ (∀ f, modeOf st = selectingOption f →
          Js.index (fieldNames config) (activeFieldIndex st) = Some f
          ∧ isSelectField config f = true)
  ∧ (editingField st = None ∨ selectingField st = None).
Proof.
  intros st. pose proof (consistent_run config evs) as Hcons. fold st in Hcons.
  split; [|split].
  - intros f Hf%modeOf_editing_cells.
    destruct (editing_ok _ _ Hcons f Hf) as (_ & Hidx & Hsel & _). auto.
  - intros f Hf%modeOf_selecting.
    destruct (selecting_ok _ _ Hcons f Hf) as (_ & Hidx & Hsel & _). auto.
  - destruct (editingField st) as [f|] eqn:Hf; [|left; reflexivity].
    right. destruct (editing_ok _ _ Hcons f Hf) as (_ & _ & _ & Hs). exact Hs.
Qed.

(** X4. While an option list is open the selection index is a position of
    that list, whatever Up and Down presses came before: it is never below
    0 and never above optionCount - 1. *)
Theorem selection_index_in_range (config : SnippetConfig) (evs : list Event)
        (f : string) :
  let st := run config evs (initialState config) in
  modeOf st = selectingOption f →
  (0 ≤ selectedOptionIndex st
   < Js.length (normalizeOptions (optionsOf (getField config f))))%Z.
Proof.
  intros st Hf%modeOf_selecting.
  pose proof (consistent_run config evs) as Hcons. fold st in Hcons.
  destruct (selecting_ok _ _ Hcons f Hf) as (_ & _ & _ & _ & Hix). exact Hix.
Qed.

(** ** Committing and discarding *)

Lemma currentValueOf_insert (vs : gmap string string) (f v : string) :
  currentValueOf (<[f := v]> vs) f = v.
Proof.
  unfold currentValueOf. rewrite lookup_insert_eq.
  destruct v; reflexivity.
Qed.

Lemma index_Int_lookup {A : Type} (arr : list A) (z : Z) :
  (0 ≤ z < Js.length arr)%Z →
  ∃ x, arr !! Z.to_nat z = Some x ∧ Js.index arr (Int z) = Some x.
Proof.
  intros Hz. unfold Js.length in Hz.
  destruct (lookup_lt_is_Some_2 arr (Z.to_nat z)) as [x Hx]; [lia|].
  exists x. split; [exact Hx|]. simpl.
  destruct (Z.leb_spec 0 z); [exact Hx|lia].
Qed.

Lemma selecting_enter_step (config : SnippetConfig) (key : KeypressEvent)
      (rl : InquirerReadline) (st : State) (f : string) :
  selectingField st = Some f →
  Js.truthy f = true →
  isEnterKey key = true →
  userHandler config key rl st
  = (mkState (status st) (errorMsg st)
             (match Js.index (normalizeOptions (optionsOf (getField config f)))
                             (Int (selectedOptionIndex st)) with
              | Some selectedOption => <[f := opt_value selectedOption]> (values st)
              | None => values st
              end)
             (activeFieldIndex st) (editingField st) (fieldInput st)
             (cursorPosition st) None 0%Z, []).
Proof.
  intros Hf Hname Hkey. unfold userHandler. rewrite Hf.
  cbn [Js.truthy_opt]. rewrite Hname, Hkey. reflexivity.
Qed.

Lemma selecting_escape_step (config : SnippetConfig) (key : KeypressEvent)
      (rl : InquirerReadline) (st : State) (f : string) :
  selectingField st = Some f →
  Js.truthy f = true →
  key_name key = "escape" →
  userHandler config key rl st
  = (mkState (status st) (errorMsg st) (values st)
             (activeFieldIndex st) (editingField st) (fieldInput st)
             (cursorPosition st) None 0%Z, []).
Proof.
  intros Hf Hname Hkey. destruct (named_key key _ Hkey) as (_ & Hent & _).
  unfold userHandler. rewrite Hf.
  cbn [Js.truthy_opt]. rewrite Hname, Hent, Hkey. reflexivity.
Qed.

(** X5. With an option list open, Enter writes the stored value of the
    option under the selection index into the value map at the field being
    selected, and only there, and returns to navigating mode on the same
    field; Escape returns to navigating mode with the value map as it
    was. *)
Theorem select_commit_or_discard (config : SnippetConfig) (evs : list Event)
        (f : string) (key : KeypressEvent) (rl : InquirerReadline) :
  let st := run config evs (initialState config) in
  modeOf st = selectingOption f →
  (isEnterKey key = true →
   ∃ opt, normalizeOptions (optionsOf (getField config f))
            !! Z.to_nat (selectedOptionIndex st) = Some opt
          ∧ values (step config st (key, rl)) = <[f := opt_value opt]> (values st)
          ∧ modeOf (step config st (key, rl)) = navigating
          ∧ activeFieldIndex (step config st (key, rl)) = activeFieldIndex st)
  ∧ (key_name key = "escape" →
     values (step config st (key, rl)) = values st
     ∧ modeOf (step config st (key, rl)) = navigating
     ∧ activeFieldIndex (step config st (key, rl)) = activeFieldIndex st).
Proof.
  intros st Hf%modeOf_selecting.
  pose proof (consistent_run config evs) as Hcons. fold st in Hcons.
  destruct (selecting_ok _ _ Hcons f Hf) as (Hname & _ & _ & Hed & Hix).
  split.
  - intros Hkey.
    destruct (index_Int_lookup _ _ Hix) as (opt & Hopt & Hidx).
    exists opt. split; [exact Hopt|].
    unfold step. cbn [fst snd].
    rewrite (selecting_enter_step config key rl st f Hf Hname Hkey), Hidx.
    split; [reflexivity|]. split; [|reflexivity].
    unfold modeOf. simpl. rewrite Hed. reflexivity.
  - intros Hkey.
    unfold step. cbn [fst snd].
    rewrite (selecting_escape_step config key rl st f Hf Hname Hkey).
    split; [reflexivity|]. split; [|reflexivity].
    unfold modeOf. simpl. rewrite Hed. reflexivity.
Qed.

(** X6. Committing an option and opening the list again finds it: after
    Enter (commit) and Enter (reopen) the list of the same field is open,
    the option under the selection index has the committed value and the
    index is not after the committed position; when the stored values of
    the options are pairwise distinct, the index is the committed
    position. *)
Theorem select_commit_reopen (config : SnippetConfig) (evs : list Event)
        (f : string) (key1 key2 : KeypressEvent) (rl1 rl2 : InquirerReadline) :
  let st := run config evs (initialState config) in
  let options := normalizeOptions (optionsOf (getField config f)) in
  modeOf st = selectingOption f →
  isEnterKey key1 = true →
  isEnterKey key2 = true →
  let st2 := run config [(key1, rl1); (key2, rl2)] st in
  modeOf st2 = selectingOption f
  ∧ (0 ≤ selectedOptionIndex st2 ≤ selectedOptionIndex st)%Z
  ∧ (opt_value <$> options !! Z.to_nat (selectedOptionIndex st2))
    = (opt_value <$> options !! Z.to_nat (selectedOptionIndex st))
  ∧ values st2 !! f
    = (opt_value <$> options !! Z.to_nat (selectedOptionIndex st))
  ∧ (NoDup (map opt_value options) →
     selectedOptionIndex st2 = selectedOptionIndex st).
Proof.
  intros st options Hmode Hkey1 Hkey2 st2.
  pose proof (consistent_run config evs) as Hcons. fold st in Hcons.
  pose proof (modeOf_selecting _ _ Hmode) as Hf.
  destruct (selecting_ok _ _ Hcons f Hf) as (Hname & Hactive & Hsel & Hed & Hix).
  destruct (index_Int_lookup _ _ Hix) as (opt & Hopt & Hidx).
  fold options in Hopt, Hidx, Hix.
  set (st1 := step config st (key1, rl1)).
  assert (Hst1 : st1 = mkState (status st) (errorMsg st)
                         (<[f := opt_value opt]> (values st))
                         (activeFieldIndex st) (editingField st) (fieldInput st)
                         (cursorPosition st) None 0%Z).
  { subst st1. unfold step. cbn [fst snd].
    rewrite (selecting_enter_step config key1 rl1 st f Hf Hname Hkey1).
    fold options. rewrite Hidx. reflexivity. }
  assert (Hnav1 : modeOf st1 = navigating).
  { rewrite Hst1. unfold modeOf. simpl. rewrite Hed. reflexivity. }
  assert (Hact1 : Js.index (fieldNames config) (activeFieldIndex st1) = Some f).
  { rewrite Hst1. exact Hactive. }
  change st2 with (step config st1 (key2, rl2)). unfold step. simpl fst. simpl snd.
  rewrite (enter_select_step config key2 rl2 st1 f Hnav1 Hkey2 Hact1 Hname Hsel).
  cbv zeta. simpl fst. fold options.
  replace (currentValueOf (values st1) f) with (opt_value opt)
    by (rewrite Hst1; simpl; symmetry; apply currentValueOf_insert).
  unfold Js.findIndex.
  destruct (findIndex_from_spec
              (fun o => String.eqb (opt_value o) (opt_value opt)) options 0)
    as [[_ Hall] | (n & o & Hr & Hn & Hp & Hlt)].
  { specialize (Hall opt (list_elem_of_lookup_2 _ _ _ Hopt)). simpl in Hall.
    rewrite String.eqb_refl in Hall. discriminate Hall. }
  rewrite Hr, Z.add_0_l.
  replace (0 <=? Z.of_nat n)%Z with true by (symmetry; apply Z.leb_le; lia).
  simpl selectedOptionIndex. apply String.eqb_eq in Hp.
  assert (Hle : (n ≤ Z.to_nat (selectedOptionIndex st))%nat).
  { destruct (Nat.le_gt_cases n (Z.to_nat (selectedOptionIndex st))) as [H|H];
      [exact H|].
    specialize (Hlt _ _ H Hopt). simpl in Hlt.
    rewrite String.eqb_refl in Hlt. discriminate Hlt. }
  split; [unfold modeOf; simpl; rewrite Hname; reflexivity|].
  split; [lia|].
  rewrite Nat2Z.id, Hn, Hopt. simpl.
  split; [rewrite Hp; reflexivity|].
  split; [rewrite Hst1; simpl; apply lookup_insert_eq|].
  intros Hnodup.
  assert (n = Z.to_nat (selectedOptionIndex st)) as ->.
  { apply (NoDup_lookup _ _ _ (opt_value opt) Hnodup).
    - rewrite list_lookup_fmap, Hn. simpl. rewrite Hp. reflexivity.
    - rewrite list_lookup_fmap, Hopt. reflexivity. }
  lia.
Qed.

Lemma last_default_irrelevant {A : Type} (l : list A) (d d' : A) :
  l ≠ [] → List.last l d = List.last l d'.
Proof.
  induction l as [|a [|b l] IH]; intros Hl; [contradiction|reflexivity|].
  change (List.last (b :: l) d = List.last (b :: l) d'). apply IH. discriminate.
Qed.

Lemma last_cons_default {A : Type} (a : A) (l : list A) (d : A) :
  List.last (a :: l) d = List.last l a.
Proof.
  destruct l as [|b l]; [reflexivity|].
  change (List.last (b :: l) d = List.last (b :: l) a).
  apply last_default_irrelevant. discriminate.
Qed.

Section Editing.

Variable config : SnippetConfig.

Lemma editing_enter_step (key : KeypressEvent) (rl : InquirerReadline) (st : State)
      (fieldName : string) :
  modeOf st = editingText fieldName →
  isEnterKey key = true →
  userHandler config key rl st
  = (mkState (status st) (errorMsg st)
             (<[fieldName := fieldInput st]> (values st))
             (activeFieldIndex st) None "" 0%nat
             (selectingField st) (selectedOptionIndex st), [RlWrite ""]).
Proof.
  intros [Hs He]%modeOf_editing Hkey.
  unfold userHandler. rewrite Hs, He, Hkey. reflexivity.
Qed.

(** The keys typed while editing: the input follows the line buffer. *)
Lemma editing_run_input (typed : list Event) :
  ∀ (st : State) (fieldName : string),
    modeOf st = editingText fieldName →
    Forall (fun ev : Event => isEnterKey (fst ev) = false
                              ∧ key_name (fst ev) ≠ "escape") typed →
    modeOf (run config typed st) = editingText fieldName
    ∧ values (run config typed st) = values st
    ∧ fieldInput (run config typed st)
      = List.last (map (fun ev : Event => line (snd ev)) typed) (fieldInput st)
    ∧ activeFieldIndex (run config typed st) = activeFieldIndex st.
Proof.
  induction typed as [|[key rl] typed IH]; intros st fieldName Hmode Hkeys.
  - split; [exact Hmode|]. split; [reflexivity|]. split; reflexivity.
  - apply Forall_cons in Hkeys as [[Hkey Hesc] Hkeys]. simpl in Hkey, Hesc.
    change (run config ((key, rl) :: typed) st)
      with (run config typed (step config st (key, rl))).
    assert (Hstep : step config st (key, rl)
                    = mkState (status st) (errorMsg st) (values st)
                              (activeFieldIndex st) (editingField st) (line rl)
                              (String.length (line rl))
                              (selectingField st) (selectedOptionIndex st)).
    { unfold step. simpl.
      rewrite (editing_step_other config key rl st fieldName Hmode Hkey Hesc).
      reflexivity. }
    destruct (IH (step config st (key, rl)) fieldName) as (Hm & Hv & Hi & Ha).
    + rewrite Hstep. exact Hmode.
    + exact Hkeys.
    + split; [exact Hm|]. split; [rewrite Hv, Hstep; reflexivity|].
      split; [|rewrite Ha, Hstep; reflexivity].
      rewrite Hi, Hstep. cbn [map snd fieldInput].
      symmetry. apply last_cons_default.
Qed.

(** X7. Editing a text field and committing: Enter on the field, keys
    other than Enter and Escape, then Enter write into the value map, at
    that field and only there, the text the line buffer held at the last
    of those keys - or the field's value before the edit when no key came
    in between - and return to navigating mode with an empty input. *)
Theorem edit_commit_typed
        (keyOpen keyCommit : KeypressEvent) (rlOpen rlCommit : InquirerReadline)
        (typed : list Event) (st : State) (fieldName : string) :
  modeOf st = navigating →
  Js.index (fieldNames config) (activeFieldIndex st) = Some fieldName →
  fieldName ≠ "" →
  isSelectField config fieldName = false →
  isEnterKey keyOpen = true →
  isEnterKey keyCommit = true →
  Forall (fun ev : Event => isEnterKey (fst ev) = false
                            ∧ key_name (fst ev) ≠ "escape") typed →
  let text := List.last (map (fun ev : Event => line (snd ev)) typed)
                        (currentValueOf (values st) fieldName) in
  let st' := run config ((keyOpen, rlOpen) :: typed ++ [(keyCommit, rlCommit)]) st in
  values st' = <[fieldName := text]> (values st)
  ∧ modeOf st' = navigating
  ∧ fieldInput st' = ""
  ∧ activeFieldIndex st' = activeFieldIndex st.
Proof.
  intros Hnav Hidx Hname%truthy_nonempty Hsel Hopen Hcommit Htyped text st'.
  subst st'.
  change (run config ((keyOpen, rlOpen) :: typed ++ [(keyCommit, rlCommit)]) st)
    with (run config (typed ++ [(keyCommit, rlCommit)])
              (step config st (keyOpen, rlOpen))).
  rewrite run_app.
  set (opened := step config st (keyOpen, rlOpen)).
  assert (Hopened : opened
                    = mkState (status st) (errorMsg st) (values st)
                              (activeFieldIndex st) (Some fieldName)
                              (currentValueOf (values st) fieldName)
                              (String.length (currentValueOf (values st) fieldName))
                              (selectingField st) (selectedOptionIndex st)).
  { subst opened. unfold step. simpl.
    rewrite (enter_text_step config keyOpen rlOpen st fieldName
               Hnav Hopen Hidx Hname Hsel). reflexivity. }
  assert (Hmode : modeOf opened = editingText fieldName).
  { rewrite Hopened. destruct (modeOf_navigating st Hnav) as [Hs _].
    unfold modeOf. simpl. rewrite Hs, Hname. reflexivity. }
  destruct (editing_run_input typed opened fieldName Hmode Htyped)
    as (Hm & Hv & Hi & Ha).
  change (run config [(keyCommit, rlCommit)] (run config typed opened))
    with (step config (run config typed opened) (keyCommit, rlCommit)).
  set (mid := run config typed opened) in *.
  unfold step. simpl fst. simpl snd.
  rewrite (editing_enter_step keyCommit rlCommit mid fieldName Hm Hcommit).
  simpl fst. cbn [values fieldInput activeFieldIndex].
  split; [|split; [|split; [reflexivity|]]].
  - rewrite Hv, Hi, Hopened. reflexivity.
  - destruct (modeOf_editing _ _ Hm) as [Hs _].
    unfold modeOf. simpl. rewrite Hs. reflexivity.
  - rewrite Ha, Hopened. reflexivity.
Qed.

End Editing.

(** ** The cursor of a field being edited *)

Lemma substring_all (s : string) : String.substring 0 (String.length s) s = s.
Proof. induction s as [|c s IH]; simpl; [reflexivity|]. rewrite IH. reflexivity. Qed.

Lemma substring_past_end (s : string) (k m : nat) :
  (String.length s ≤ k)%nat → String.substring k m s = "".
Proof.
  revert k. induction s as [|c s IH]; intros k Hk.
  - destruct k, m; reflexivity.
  - destruct k as [|k]; simpl in Hk; [lia|]. simpl. apply IH. lia.
Qed.

Lemma append_empty_r (s : string) : s +:+ "" = s.
Proof.
  induction s as [|c s IH]; [reflexivity|].
  change (String c (s +:+ "") = String c s). f_equal. exact IH.
Qed.

(** X8. For a configuration without a field keyed [__proto__]: in every
    state the prompt reaches while a field is edited, the display fragment
    the render loop computes for that field (the text it then hands to
    [replace]) is the whole input followed by an inverted space, or an
    inverted space alone when the input is empty: the cursor position is
    the length of the input, wherever the cursor of the line buffer is. *)
Theorem editing_cursor_at_end (config : SnippetConfig) (evs : list Event)
        (f : string) (index : nat) :
  ordinaryNames config = true →
  let st := run config evs (initialState config) in
  modeOf st = editingText f →
  cursorPosition st = String.length (fieldInput st)
  ∧ displayValue config st f index
    = (if Js.truthy (fieldInput st) then fieldInput st +:+ inverted " "
       else inverted " ").
Proof.
  intros _ st Hf%modeOf_editing_cells.
  pose proof (consistent_run config evs) as Hcons. fold st in Hcons.
  pose proof (cursor_at_end _ _ Hcons) as Hcur.
  split; [exact Hcur|].
  unfold displayValue. rewrite Hf. cbn [strictEq]. rewrite String.eqb_refl.
  destruct (Js.truthy (fieldInput st)); [|reflexivity].
  rewrite Hcur. unfold Js.slice, Js.slice_from.
  rewrite Nat.sub_0_r, substring_all.
  rewrite (substring_past_end (fieldInput st) (String.length (fieldInput st))) by lia.
  rewrite (substring_past_end (fieldInput st) (String.length (fieldInput st) + 1)) by lia.
  cbn [Js.or_else Js.truthy_opt Js.truthy]. rewrite append_empty_r. reflexivity.
Qed.

(** ** What the modes keep *)

(** X9. While a field is edited or an option list is open, no key moves
    the active field, changes the status or the error message, runs the
    validation or resolves the prompt: ctrl+s, Tab and the arrows act on
    the fields only in navigating mode. *)
Theorem busy_modes_keep_navigation (config : SnippetConfig)
        (key : KeypressEvent) (rl : InquirerReadline) (st : State) :
  modeOf st ≠ navigating →
  activeFieldIndex (step config st (key, rl)) = activeFieldIndex st
  ∧ status (step config st (key, rl)) = status st
  ∧ errorMsg (step config st (key, rl)) = errorMsg st
  ∧ ∀ v, ¬ In (Done v) (snd (userHandler config key rl st)).
Proof.
  intros Hmode. unfold modeOf in Hmode. unfold step, userHandler. simpl.
  destruct (Js.truthy_opt (selectingField st)).
  { repeat case_match; simpl; repeat split; intros v []. }
  destruct (Js.truthy_opt (editingField st)); [|contradiction].
  repeat case_match; simpl; repeat split; intros v Hin;
    repeat (destruct Hin as [Hin|Hin]; try discriminate Hin); destruct Hin.
Qed.

(** A key resolves the prompt only as a submit in navigating mode, with
    the value map of the state, and only when the gate yields [true]. *)
Lemma done_step (config : SnippetConfig) (key : KeypressEvent)
      (rl : InquirerReadline) (st : State) (v : gmap string string) :
  In (Done v) (snd (userHandler config key rl st)) →
  v = values st ∧ runValidate config (values st) = VBool true
  ∧ modeOf st = navigating ∧ isSubmitKey key = true
  ∧ status (step config st (key, rl)) = done.
Proof.
  unfold step, userHandler, modeOf. cbn [fst snd].
  destruct (Js.truthy_opt (selectingField st)).
  { repeat case_match; simpl; intros []. }
  destruct (Js.truthy_opt (editingField st)).
  { repeat case_match; simpl; intros Hin;
      repeat (destruct Hin as [Hin|Hin]; try discriminate Hin); destruct Hin. }
  destruct (isSubmitKey key).
  - destruct (runValidate config (values st)) as [[|]|msg]; simpl.
    + intros [[= <-]|[]]. repeat split.
    + intros [].
    + intros [].
  - repeat case_match; simpl; intros Hin;
      repeat (destruct Hin as [Hin|Hin]; try discriminate Hin); destruct Hin.
Qed.

(** X10. Whatever the keys and the state they start from, every value map
    the prompt resolves with passes the validation: it is the value map of
    the state in which ctrl+s was pressed, the predicate (if any) returned
    [true] on it, and the status after that key is [done]. *)
Theorem resolved_values_are_valid (config : SnippetConfig) (evs : list Event)
        (st : State) (v : gmap string string) :
  In (Done v) (effects config evs st) →
  runValidate config v = VBool true
  ∧ ∃ (before : list Event) key rl (after : list Event),
      evs = (before ++ (key, rl) :: after)%list
      ∧ isSubmitKey key = true
      ∧ values (run config before st) = v
      ∧ status (run config (before ++ [(key, rl)])%list st) = done.
Proof.
  revert st. induction evs as [|[key rl] evs IH]; intros st; simpl; [intros []|].
  intros [Hin|Hin]%in_app_or.
  - destruct (done_step config key rl st v Hin) as (-> & Hok & _ & Hkey & Hst).
    split; [exact Hok|]. exists [], key, rl, evs. repeat split; assumption.
  - destruct (IH _ Hin) as (Hok & before & k & r & after & -> & Hk & Hv & Hst).
    split; [exact Hok|]. exists ((key, rl) :: before), k, r, after.
    repeat split; assumption.
Qed.

(** X11. The value map changes only by a commit: a key either leaves the
    value map as it is, or it is Enter pressed while a field is edited or
    an option list is open, and the new map is the old one with one value
    written at that field. *)
Theorem values_change_only_on_commit (config : SnippetConfig)
        (key : KeypressEvent) (rl : InquirerReadline) (st : State) :
  values (step config st (key, rl)) = values st
  ∨ (isEnterKey key = true
     ∧ ∃ f v, (modeOf st = editingText f ∨ modeOf st = selectingOption f)
              ∧ values (step config st (key, rl)) = <[f := v]> (values st)).
Proof.
  unfold step, userHandler, modeOf. cbn [fst snd].
  destruct (Js.truthy_opt (selectingField st)) as [f|].
  { destruct (isEnterKey key).
    - destruct (Js.index (normalizeOptions (optionsOf (getField config f)))
                         (Int (selectedOptionIndex st))) as [opt|];
        simpl; [|left; reflexivity].
      right. split; [reflexivity|]. exists f, (opt_value opt). auto.
    - left. repeat case_match; reflexivity. }
  destruct (Js.truthy_opt (editingField st)) as [f|].
  { destruct (isEnterKey key).
    - right. split; [reflexivity|]. exists f, (fieldInput st). auto.
    - left. repeat case_match; reflexivity. }
  left. repeat case_match; reflexivity.
Qed.

(** ** More on the render pass *)




(** X14. For a configuration without a field keyed [__proto__], in every
    state reached from the initial state the render pass produces the
    frame: the value the loop reads for each declared field is an entry of
    the value map, the pattern built from each field name, of any
    characters, is the pattern of the literal placeholder, and the snippet
    and the frame are produced. *)
Theorem render_never_fails (config : SnippetConfig) (evs : list Event) :
  ordinaryNames config = true →
  let st := run config evs (initialState config) in
  (∀ name, name ∈ fieldNames config →
           ∃ value, values st !! name = Some value
                    ∧ currentValueOf (values st) name = value)
  ∧ (∀ name, RegExp.literal (RegExp.escape (placeholderOf name))
             = Some (placeholderOf name))
  ∧ is_Some (renderSnippet config st)
  ∧ is_Some (renderFrame config st).
Proof.
  intros _ st.
  pose proof (consistent_run config evs) as Hcons. fold st in Hcons.
  split.
  { intros name Hname.
    assert (Hdom : name ∈ dom (values st)).
    { rewrite (one_entry_per_field _ _ Hcons).
      apply elem_of_list_to_set, Hname. }
    apply elem_of_dom in Hdom as [value Hvalue].
    exists value. split; [exact Hvalue|].
    unfold currentValueOf. rewrite Hvalue. destruct value; reflexivity. }
  split; [intros name; apply escape_literal|].
  destruct (renderFields_total config st (fieldNames config) (template config) 0)
    as [snippet Hsnippet].
  split; [exists snippet; exact Hsnippet|].
  unfold renderFrame, renderSnippet. rewrite Hsnippet. eexists. reflexivity.
Qed.

Lemma optionLines_lookup (st : State) (options : list SelectOption) :
  ∀ (k : nat) (n : nat) (option : SelectOption),
    options !! n = Some option →
    optionLines st options (Z.of_nat k) !! n = Some (optionLine st (k + n) option).
Proof.
  induction options as [|o options IH]; intros k n option Hn; [discriminate Hn|].
  destruct n as [|n].
  - injection Hn as ->. cbn [optionLines lookup list_lookup].
    unfold optionLine. rewrite Nat.add_0_r.
    destruct (Z.of_nat k =? selectedOptionIndex st)%Z; reflexivity.
  - cbn [optionLines]. cbn [lookup list_lookup].
    replace (Z.of_nat k + 1)%Z with (Z.of_nat (S k)) by lia.
    replace (k + S n)%nat with (S k + n)%nat by lia.
    apply IH. exact Hn.
Qed.

(** X15. In every state the prompt reaches with an option list open, the
    list drawn under the snippet marks exactly the option under the
    selection index: that line is the pointer and the inverted name, every
    other line is the plain name after two spaces. *)
Theorem open_list_marks_selection (config : SnippetConfig) (evs : list Event)
        (f : string) :
  let st := run config evs (initialState config) in
  let options := normalizeOptions (optionsOf (getField config f)) in
  modeOf st = selectingOption f →
  renderSelectOptions config st = Js.join newline (optionLines st options 0)
  ∧ (∃ selected,
        options !! Z.to_nat (selectedOptionIndex st) = Some selected
        ∧ optionLines st options 0 !! Z.to_nat (selectedOptionIndex st)
          = Some (pointer +:+ " " +:+ inverted (opt_name selected)))
  ∧ (∀ n option, n ≠ Z.to_nat (selectedOptionIndex st) →
                 options !! n = Some option →
                 optionLines st options 0 !! n = Some ("  " +:+ opt_name option)).
Proof.
  intros st options Hmode.
  pose proof (consistent_run config evs) as Hcons. fold st in Hcons.
  pose proof (modeOf_selecting _ _ Hmode) as Hf.
  destruct (selecting_ok _ _ Hcons f Hf) as (Hname & _ & _ & _ & Hix).
  fold options in Hix.
  split; [|split].
  - unfold renderSelectOptions. rewrite Hf. cbn [Js.truthy_opt].
    rewrite Hname. reflexivity.
  - destruct (index_Int_lookup _ _ Hix) as (selected & Hsel & _).
    exists selected. split; [exact Hsel|].
    pose proof (optionLines_lookup st options 0 _ selected Hsel) as Hline.
    change (Z.of_nat 0) with 0%Z in Hline. rewrite Hline.
    unfold optionLine. rewrite Nat.add_0_l.
    replace (Z.of_nat (Z.to_nat (selectedOptionIndex st)) =? selectedOptionIndex st)%Z
      with true by (symmetry; apply Z.eqb_eq; lia).
    reflexivity.
  - intros n option Hn Hopt.
    pose proof (optionLines_lookup st options 0 _ option Hopt) as Hline.
    change (Z.of_nat 0) with 0%Z in Hline. rewrite Hline.
    unfold optionLine. rewrite Nat.add_0_l.
    replace (Z.of_nat n =? selectedOptionIndex st)%Z
      with false by (symmetry; apply Z.eqb_neq; lia).
    reflexivity.
Qed.

(** ** The two prompts *)

(** X16. On a configuration without select fields the two prompts handle
    every key alike: from a state without an open option list, the state
    cells they share are the same after the key, no option list is opened,
    and the effects are the same but for the reset of the line buffer that
    only the select-aware prompt does before it fills it. *)
Theorem text_only_prompt_agrees (config : SnippetConfig)
        (key : KeypressEvent) (rl : InquirerReadline) (st : State) :
  (∀ f, isSelectField config f = false) →
  selectingField st = None →
  TextOnly.userHandler config key rl (textCells st)
  = (textCells (fst (userHandler config key rl st)),
     withoutSetLine (snd (userHandler config key rl st)))
  ∧ selectingField (fst (userHandler config key rl st)) = None.
Proof.
  intros Hnone Hsel.
  unfold TextOnly.userHandler, userHandler, textCells. rewrite Hsel.
  cbn [Js.truthy_opt TextOnly.editingField TextOnly.values TextOnly.status
       TextOnly.errorMsg TextOnly.activeFieldIndex TextOnly.fieldInput
       TextOnly.cursorPosition].
  destruct (Js.truthy_opt (editingField st)) as [editing|].
  { repeat case_match; split; cbn; rewrite ?Hsel; reflexivity. }
  destruct (isSubmitKey key).
  { destruct (runValidate config (values st)) as [[|]|msg];
      split; cbn; rewrite ?Hsel; reflexivity. }
  destruct (isEnterKey key).
  { destruct (Js.index (fieldNames config) (activeFieldIndex st)) as [fieldName|];
      [|split; [reflexivity|exact Hsel]].
    destruct (Js.truthy fieldName); [|split; [reflexivity|exact Hsel]].
    rewrite Hnone. split; cbn; rewrite ?Hsel; reflexivity. }
  repeat case_match; split; cbn; rewrite ?Hsel; reflexivity.
Qed.

(** ** Examples of the properties above *)

Lemma mode_agrees_with_active_field_witness :
  let config := Examples.colorForm in
  let st := run config Traces.openColors (initialState config) in
  modeOf st = selectingOption "color"
  ∧ Js.index (fieldNames config) (activeFieldIndex st) = Some "color"
  ∧ isSelectField config "color" = true.
Proof.
  split; [reflexivity|].
  apply (proj1 (proj2 (mode_agrees_with_active_field
                         Examples.colorForm Traces.openColors)) "color" eq_refl).
Defined.

Lemma selection_index_in_range_witness :
  let config := Examples.colorForm in
  let st := run config Traces.openColors (initialState config) in
  modeOf st = selectingOption "color"
  ∧ (0 ≤ selectedOptionIndex st < 4)%Z.
Proof.
  split; [reflexivity|].
  exact (selection_index_in_range Examples.colorForm Traces.openColors "color" eq_refl).
Defined.

Lemma select_commit_or_discard_witness :
  let config := Examples.colorForm in
  let st := run config Traces.openColors (initialState config) in
  modeOf st = selectingOption "color"
  ∧ isEnterKey Examples.keyEnter = true
  ∧ key_name Examples.keyEscape = "escape"
  ∧ modeOf (step config st (Examples.keyEnter, Examples.rl "")) = navigating
  ∧ values (step config st (Examples.keyEscape, Examples.rl "")) = values st.
Proof.
  do 3 (split; [reflexivity|]). split.
  - destruct (proj1 (select_commit_or_discard Examples.colorForm Traces.openColors
                       "color" Examples.keyEnter (Examples.rl "") eq_refl) eq_refl)
      as (opt & _ & _ & Hmode & _).
    exact Hmode.
  - exact (proj1 (proj2 (select_commit_or_discard Examples.colorForm Traces.openColors
                           "color" Examples.keyEscape (Examples.rl "") eq_refl)
                        eq_refl)).
Defined.

Lemma select_commit_reopen_witness :
  let config := Examples.colorForm in
  let st := run config Traces.openColors (initialState config) in
  modeOf st = selectingOption "color"
  ∧ isEnterKey Examples.keyEnter = true
  ∧ modeOf (run config [(Examples.keyEnter, Examples.rl "");
                        (Examples.keyEnter, Examples.rl "")] st)
    = selectingOption "color"
  ∧ values (run config [(Examples.keyEnter, Examples.rl "");
                        (Examples.keyEnter, Examples.rl "")] st) !! "color"
    = Some "blue".
Proof.
  do 2 (split; [reflexivity|]).
  destruct (select_commit_reopen Examples.colorForm Traces.openColors "color"
              Examples.keyEnter Examples.keyEnter (Examples.rl "") (Examples.rl "")
              eq_refl eq_refl eq_refl) as (Hmode & _ & _ & Hvalue & _).
  split; [exact Hmode|exact Hvalue].
Defined.

Lemma edit_commit_typed_witness :
  let config := Examples.colorForm in
  let st := initialState config in
  modeOf st = navigating
  ∧ Js.index (fieldNames config) (activeFieldIndex st) = Some "who"
  ∧ isSelectField config "who" = false
  ∧ values (run config ((Examples.keyEnter, Examples.rl "")
                        :: [(Examples.keyChar "e", Examples.rl "Anne")]
                        ++ [(Examples.keyEnter, Examples.rl "Anne")]) st)
    = <["who" := "Anne"]> (values st).
Proof.
  do 3 (split; [reflexivity|]).
  refine (proj1 (edit_commit_typed Examples.colorForm
                   Examples.keyEnter Examples.keyEnter (Examples.rl "") (Examples.rl "Anne")
                   [(Examples.keyChar "e", Examples.rl "Anne")]
                   (initialState Examples.colorForm) "who"
                   eq_refl eq_refl _ eq_refl eq_refl eq_refl _)).
  - intros H. discriminate H.
  - repeat constructor. simpl. intros H. discriminate H.
Defined.

Lemma editing_cursor_at_end_witness :
  let config := Examples.colorForm in
  let st := run config Traces.editWho (initialState config) in
  ordinaryNames config = true
  ∧ modeOf st = editingText "who"
  ∧ displayValue config st "who" 0 = "Anne" +:+ inverted " ".
Proof.
  split; [reflexivity|]. split; [reflexivity|].
  exact (proj2 (editing_cursor_at_end Examples.colorForm Traces.editWho "who" 0
                  eq_refl eq_refl)).
Defined.

Lemma busy_modes_keep_navigation_witness :
  let config := Examples.colorForm in
  let st := run config Traces.editWho (initialState config) in
  modeOf st ≠ navigating
  ∧ activeFieldIndex (step config st (Examples.keyTab, Examples.rl "Anne"))
    = activeFieldIndex st
  ∧ status (step config st (Examples.keyCtrlS, Examples.rl "Anne")) = idle.
Proof.
  split; [intros H; discriminate H|]. split.
  - apply (busy_modes_keep_navigation Examples.colorForm Examples.keyTab
             (Examples.rl "Anne")
             (run Examples.colorForm Traces.editWho (initialState Examples.colorForm))).
    intros H. discriminate H.
  - apply (busy_modes_keep_navigation Examples.colorForm Examples.keyCtrlS
             (Examples.rl "Anne")
             (run Examples.colorForm Traces.editWho (initialState Examples.colorForm))).
    intros H. discriminate H.
Defined.

Lemma resolved_values_are_valid_witness :
  let config := Examples.nameForm "Ann" (Some Examples.nameRequired) in
  let st := initialState config in
  In (Done (values st)) (effects config [(Examples.keyCtrlS, Examples.rl "")] st)
  ∧ runValidate config (values st) = VBool true.
Proof.
  split; [left; reflexivity|].
  apply (resolved_values_are_valid
           (Examples.nameForm "Ann" (Some Examples.nameRequired))
           [(Examples.keyCtrlS, Examples.rl "")]
           (initialState (Examples.nameForm "Ann" (Some Examples.nameRequired)))).
  left. reflexivity.
Defined.



Lemma open_list_marks_selection_witness :
  let config := Examples.colorForm in
  let st := run config Traces.openColors (initialState config) in
  modeOf st = selectingOption "color"
  ∧ renderSelectOptions config st
    = "  red" +:+ newline +:+ "  green" +:+ newline
      +:+ pointer +:+ " " +:+ inverted "Blue" +:+ newline +:+ "  Green again".
Proof.
  split; [reflexivity|].
  apply (proj1 (open_list_marks_selection Examples.colorForm Traces.openColors
                  "color" eq_refl)).
Defined.

Lemma text_only_prompt_agrees_witness :
  let config := Traces.greetingForm in
  let st := initialState config in
  (∀ f, isSelectField config f = false)
  ∧ selectingField st = None
  ∧ TextOnly.editingField
      (fst (TextOnly.userHandler config Examples.keyEnter (Examples.rl "")
              (textCells st)))
    = Some "name".
Proof.
  assert (Hnone : ∀ f, isSelectField Traces.greetingForm f = false).
  { intros f. unfold isSelectField, getField, Traces.greetingForm.
    cbn [fields lookupField].
    destruct (String.eqb "name" f); [reflexivity|].
    destruct (String.eqb "company" f); reflexivity. }
  split; [exact Hnone|]. split; [reflexivity|].
  rewrite (proj1 (text_only_prompt_agrees Traces.greetingForm Examples.keyEnter
                    (Examples.rl "") (initialState Traces.greetingForm)
                    Hnone eq_refl)).
  reflexivity.
Defined.

(** ** The active field in every state *)

(** X17. With at least one field, after every sequence of keys - arrows,
    Tab, Enter, Escape, ctrl+s, typed characters, in any mode - the active
    index is an index of the field list, so there is always an active
    field. *)
Theorem active_field_always_exists (config : SnippetConfig) (evs : list Event) :
  (1 ≤ Js.length (fieldNames config))%Z →
  let st := run config evs (initialState config) in
  ∃ a name,
    activeFieldIndex st = Int a
    ∧ (0 ≤ a < Js.length (fieldNames config))%Z
    ∧ Js.index (fieldNames config) (activeFieldIndex st) = Some name.
Proof.
  intros Hcount st.
  destruct (activeIndex_in_range config evs Hcount) as (a & Ha & Hrange).
  destruct (index_Int_lookup (fieldNames config) a Hrange) as (name & _ & Hname).
  exists a, name. fold st in Ha. rewrite Ha. auto.
Qed.

Lemma active_field_always_exists_witness :
  let config := Examples.colorForm in
  (1 ≤ Js.length (fieldNames config))%Z
  ∧ ∃ a name,
      activeFieldIndex (run config Traces.openColors (initialState config)) = Int a
      ∧ (0 ≤ a < Js.length (fieldNames config))%Z
      ∧ Js.index (fieldNames config)
                 (activeFieldIndex (run config Traces.openColors (initialState config)))
        = Some name.
Proof.
  split; [intros H; discriminate H|].
  apply (active_field_always_exists Examples.colorForm Traces.openColors).
  intros H. discriminate H.
Defined.

(** X18. A configuration without fields: the prompt never leaves
    navigating mode, the value map stays empty and the snippet is the
    template as it is, whatever keys are pressed. From the initial state
    Tab makes the active index [NaN] (a remainder by zero) and Down makes
    it -1. *)
Theorem no_fields_stay_navigating (config : SnippetConfig) (evs : list Event) :
  fieldNames config = [] →
  let st := run config evs (initialState config) in
  modeOf st = navigating
  ∧ values st = ∅
  ∧ renderSnippet config st = Some (template config)
  ∧ (∀ key rl, key_name key = "tab" →
               activeFieldIndex (step config (initialState config) (key, rl)) = NaN)
  ∧ (∀ key rl, isDownKey key = true →
               activeFieldIndex (step config (initialState config) (key, rl))
               = Int (-1)).
Proof.
  intros Hnames st.
  pose proof (consistent_run config evs) as Hcons. fold st in Hcons.
  assert (Hno : ∀ i f, Js.index (fieldNames config) i ≠ Some f).
  { intros i f Hf%index_elem. rewrite Hnames in Hf. inversion Hf. }
  assert (Hs : selectingField st = None).
  { destruct (selectingField st) as [f|] eqn:Hf; [|reflexivity].
    destruct (selecting_ok _ _ Hcons f Hf) as (_ & Hidx & _).
    destruct (Hno _ _ Hidx). }
  assert (He : editingField st = None).
  { destruct (editingField st) as [f|] eqn:Hf; [|reflexivity].
    destruct (editing_ok _ _ Hcons f Hf) as (_ & Hidx & _).
    destruct (Hno _ _ Hidx). }
  split; [unfold modeOf; rewrite Hs, He; reflexivity|].
  split.
  { apply dom_empty_inv_L.
    rewrite (one_entry_per_field _ _ Hcons), Hnames. reflexivity. }
  split; [unfold renderSnippet; rewrite Hnames; reflexivity|].
  split.
  - intros key rl Hkey. unfold step. simpl.
    rewrite (tab_step config key rl (initialState config) eq_refl Hkey).
    rewrite Hnames. reflexivity.
  - intros key rl Hkey. unfold step. simpl.
    rewrite (down_step config key rl (initialState config) eq_refl Hkey).
    rewrite Hnames. reflexivity.
Qed.

Lemma no_fields_stay_navigating_witness :
  let config := mkSnippetConfig "Empty" "Nothing to fill" [] None plainTheme in
  let evs := [(Examples.keyEnter, Examples.rl ""); (Examples.keyTab, Examples.rl "");
              (Examples.keyEnter, Examples.rl "")] in
  fieldNames config = []
  ∧ modeOf (run config evs (initialState config)) = navigating
  ∧ activeFieldIndex (step config (initialState config)
                           (Examples.keyTab, Examples.rl "")) = NaN.
Proof.
  split; [reflexivity|].
  destruct (no_fields_stay_navigating
              (mkSnippetConfig "Empty" "Nothing to fill" [] None plainTheme)
              [(Examples.keyEnter, Examples.rl ""); (Examples.keyTab, Examples.rl "");
               (Examples.keyEnter, Examples.rl "")] eq_refl)
    as (Hmode & _ & _ & Htab & _).
  split; [exact Hmode|].
  apply (Htab Examples.keyTab (Examples.rl "") eq_refl).
Defined.

(** ** Examples for the plain-object configurations and the empty name *)

(** C4 as stated fails for the field declared with an empty option list
    under the empty name: Enter leaves the prompt in navigating mode, it
    does not open text editing. *)
Lemma unnamed_empty_options_not_edited :
  ¬ emptyOptionsFieldIsText unnamedEmptyOptionsForm "".
Proof.
  intros Hclaim. destruct (Hclaim eq_refl) as [_ Henter].
  specialize (Henter Examples.keyEnter (Examples.rl "")
                     (initialState unnamedEmptyOptionsForm)
                     eq_refl eq_refl eq_refl).
  vm_compute in Henter. discriminate Henter.
Qed.

Lemma initialValues_lookup_witness :
  let config := Examples.colorForm in
  ordinaryNames config = true
  ∧ values (initialState config) !! "color" = Some "green"
  ∧ values (initialState config) !! "shape" = None.
Proof.
  split; [reflexivity|]. split.
  - exact (initialValues_lookup Examples.colorForm "color" eq_refl).
  - exact (initialValues_lookup Examples.colorForm "shape" eq_refl).
Defined.

Lemma value_map_keys_fixed_witness :
  let config := Examples.colorForm in
  ordinaryNames config = true
  ∧ is_Some (values (run config Traces.openColors (initialState config)) !! "food").
Proof.
  split; [reflexivity|].
  apply (proj2 (value_map_keys_fixed Examples.colorForm Traces.openColors "food"
                  eq_refl)).
  repeat constructor.
Defined.

Lemma render_never_fails_witness :
  let config := Examples.colorForm in
  ordinaryNames config = true
  ∧ is_Some (renderFrame config (run config Traces.editWho (initialState config))).
Proof.
  split; [reflexivity|].
  exact (proj2 (proj2 (proj2 (render_never_fails Examples.colorForm Traces.editWho
                                eq_refl)))).
Defined.
